(** * ff-graph: hierarchy, system registry, nested graphs and selection

    A shallow embedding of [source/Hierarchy.ts], [source/System.ts],
    [source/components/CGraph.ts] and [source/SelectionController.ts].

    Objects of the TypeScript heap are addressed by identifiers; a heap of
    [Hierarchy] components is a finite map from identifiers to records.
    Event emission goes through the external Publisher: an emission is
    recorded in a log, in the order in which [emit] is called.  Loops that
    follow [_parent] references take a fuel argument; [None] means that the
    fuel ran out before the loop left. *)

From Stdlib Require Import ZArith.
From stdpp Require Import gmap strings list pretty.

Local Open Scope string_scope.
Local Open Scope Z_scope.
Local Open Scope nat_scope.
Local Open Scope list_scope.

(** How a call ends: with a value, or with a thrown [Error]. *)
Inductive completion (A : Type) : Type :=
  | Return (a : A)
  | Throw (message : string).
Arguments Return {A} a.
Arguments Throw {A} message.

(** The error JavaScript raises when a property of [null] or [undefined]
    is read; identifiers that are not in the heap stand for such references. *)
Definition TypeError : string := "TypeError".

(** The error of a lookup that finds nothing. *)
Definition NotFound : string := "NotFound".

(** Modelled from the spec: [get(typeOrNone, noThrow)] of ObjectRegistry, of
    the library @ff/core, whose source is not part of this repository.
    "Returns the single instance of a type (or the first instance if no
    type given), or fails with a NotFound error unless noThrow is
    requested, in which case it returns an empty result."  [instances] are
    the instances filed under the asked type, in insertion order; [None]
    is the empty result. *)
Definition ObjectRegistry_get {C : Type} (instances : list C) (nothrow : bool)
    : completion (option C) :=
  match instances with
  | instance :: _ => Return (Some instance)
  | [] => if nothrow then Return None else Throw NotFound
  end.

(* ###################################################################### *)
(** * Part I: the program *)

(* ====================================================================== *)
(** ** Hierarchy.ts *)

Module Hierarchy.

(** [protected _parent: Hierarchy = null; protected _children: Hierarchy[] = []],
    and the [node] the component belongs to (inherited from Component). *)
Record Hierarchy : Type := mkHierarchy {
  node : nat;
  _parent : option nat;
  _children : list nat
}.

(** [IHierarchyEvent] *)
Record IHierarchyEvent : Type := mkEvent {
  type : string;
  add : bool;
  remove : bool;
  parent : nat;
  child : nat
}.

(** The publisher on which [emit] is called: a hierarchy component or a node. *)
Inductive emitter : Type :=
  | AtComponent (component : nat)
  | AtNode (n : nat).

(** State after a call, the events emitted during it, and how it ended. *)
Record outcome : Type := mkOutcome {
  final : gmap nat Hierarchy;
  emitted : list (emitter * IHierarchyEvent);
  result : completion unit
}.

Definition set_parent (p : option nat) (h : Hierarchy) : Hierarchy :=
  {| node := node h; _parent := p; _children := _children h |}.

Definition set_children (l : list nat) (h : Hierarchy) : Hierarchy :=
  {| node := node h; _parent := _parent h; _children := l |}.

(** [Array.prototype.push] *)
Definition push (x : nat) (l : list nat) : list nat := l ++ [x].

(** [Array.prototype.indexOf]: the first index holding [x], or -1. *)
Fixpoint indexOf (l : list nat) (x : nat) : Z :=
  match l with
  | [] => (-1)%Z
  | y :: l' =>
      if decide (y = x) then 0%Z
      else let i := indexOf l' x in if (i <? 0)%Z then (-1)%Z else (i + 1)%Z
  end.

(** [Array.prototype.splice(start, deleteCount)]: a negative [start] counts
    from the end of the array, and both arguments are clamped to it. *)
Definition splice (l : list nat) (start deleteCount : Z) : list nat :=
  let len := Z.of_nat (length l) in
  let from := if (start <? 0)%Z then Z.max (len + start) 0 else Z.min start len in
  let count := Z.max 0 (Z.min deleteCount (len - from)) in
  take (Z.to_nat from) l ++ drop (Z.to_nat (from + count)) l.

(** The loop that ends [addChild] and [removeChild]:
<<
    while (component) {
        component.emit<IHierarchyEvent>(event);
        component.node.emit<IHierarchyEvent>(event);
        component = component._parent;
    }
>> *)
Fixpoint multicast (fuel : nat) (s : gmap nat Hierarchy) (event : IHierarchyEvent)
    (component : option nat) (log : list (emitter * IHierarchyEvent)) : option outcome :=
  match component with
  | None => Some {| final := s; emitted := log; result := Return tt |}
  | Some c =>
      match fuel with
      | O => None
      | S fuel' =>
          match s !! c with
          | None => Some {| final := s; emitted := log; result := Throw TypeError |}
          | Some h =>
              multicast fuel' s event (_parent h)
                (log ++ [(AtComponent c, event); (AtNode (node h), event)])
          end
      end
  end.

(** [addChild(component: Hierarchy)], called on [this]. *)
Definition addChild (fuel : nat) (this component : nat) (s : gmap nat Hierarchy)
    : option outcome :=
  match s !! component with
  | None => Some {| final := s; emitted := []; result := Throw TypeError |}
  | Some c =>
      match _parent c with
      | Some _ =>
          Some {| final := s; emitted := [];
                  result := Throw "component should not have a parent" |}
      | None =>
          let s1 := alter (set_parent (Some this)) component s in
          match s1 !! this with
          | None => Some {| final := s1; emitted := []; result := Throw TypeError |}
          | Some t =>
              let s2 := alter (set_children (push component (_children t))) this s1 in
              let event := {| type := "hierarchy"; add := true; remove := false;
                              parent := this; child := component |} in
              multicast fuel s2 event (Some component) []
          end
      end
  end.

(** [removeChild(component: Hierarchy)], called on [this]. *)
Definition removeChild (fuel : nat) (this component : nat) (s : gmap nat Hierarchy)
    : option outcome :=
  match s !! component with
  | None => Some {| final := s; emitted := []; result := Throw TypeError |}
  | Some c =>
      if decide (_parent c = Some this) then
        match s !! this with
        | None => Some {| final := s; emitted := []; result := Throw TypeError |}
        | Some t =>
            let index := indexOf (_children t) component in
            let s1 := alter (set_children (splice (_children t) index 1)) this s in
            let s2 := alter (set_parent None) component s1 in
            let event := {| type := "hierarchy"; add := false; remove := true;
                            parent := this; child := component |} in
            multicast fuel s2 event (Some component) []
        end
      else
        Some {| final := s; emitted := [];
                result := Throw "component not a child of this" |}
  end.

Section Lookup.

(** The component set of a node is kept by Node.ts, in an ObjectRegistry:
    [components_getArray n type] stands for the components of the type on
    the node [n], in insertion order.  The call
    [parent.node.components.get(componentOrType)] passes no [nothrow]: it
    is [ObjectRegistry_get] with [nothrow = false], which throws when the
    node has no component of the type. *)
Context {T C : Type}.
Variable components_getArray : nat -> T -> list C.

(** The loop of [getParent]:
<<
    while(parent) {
        component = parent.node.components.get(componentOrType);
        if (component) {
            return component;
        }
    }
>>
    [parent] is not assigned inside the loop. *)
Fixpoint getParent_loop (fuel : nat) (s : gmap nat Hierarchy) (parent : option nat)
    (componentOrType : T) : option (completion (option C)) :=
  match parent with
  | None => Some (Return None)
  | Some p =>
      match fuel with
      | O => None
      | S fuel' =>
          match s !! p with
          | None => Some (Throw TypeError)
          | Some ph =>
              match
                ObjectRegistry_get
                  (components_getArray (node ph) componentOrType) false
              with
              | Throw e => Some (Throw e)
              | Return (Some component) => Some (Return (Some component))
              | Return None => getParent_loop fuel' s parent componentOrType
              end
          end
      end
  end.

(** [getParent(componentOrType, recursive)], called on [this]. *)
Definition getParent (fuel : nat) (s : gmap nat Hierarchy) (this : nat)
    (componentOrType : T) (recursive : bool) : option (completion (option C)) :=
  match s !! this with
  | None => Some (Throw TypeError)
  | Some h =>
      match _parent h with
      | None => Some (Return None)
      | Some p =>
          match s !! p with
          | None => Some (Throw TypeError)
          | Some ph =>
              match
                ObjectRegistry_get
                  (components_getArray (node ph) componentOrType) false
              with
              | Throw e => Some (Throw e)
              | Return (Some component) => Some (Return (Some component))
              | Return None =>
                  if recursive then getParent_loop fuel s (_parent ph) componentOrType
                  else Some (Return None)
              end
          end
      end
  end.

End Lookup.

(** The ancestors of a hierarchy, itself first and the root of its tree
    last: [chain s h l] holds when following [_parent] from [h] visits
    exactly [l] and ends at a hierarchy without parent. *)
Inductive chain (s : gmap nat Hierarchy) : nat -> list nat -> Prop :=
  | chain_root h r :
      s !! h = Some r -> _parent r = None -> chain s h [h]
  | chain_step h r p l :
      s !! h = Some r -> _parent r = Some p -> chain s p l -> chain s h (h :: l).

(** The two emissions of one turn of the multicast loop. *)
Definition emissions_at (s : gmap nat Hierarchy) (event : IHierarchyEvent) (h : nat)
    : list (emitter * IHierarchyEvent) :=
  match s !! h with
  | Some r => [(AtComponent h, event); (AtNode (node r), event)]
  | None => []
  end.

(** Every entry of a children list points back to the list's owner. *)
Definition children_sound (s : gmap nat Hierarchy) : Prop :=
  map_Forall
    (fun h r => Forall (fun c => _parent <$> s !! c = Some (Some h)) (_children r)) s.

(** Every hierarchy is listed among the children of its parent. *)
Definition parents_sound (s : gmap nat Hierarchy) : Prop :=
  forall h r p, s !! h = Some r -> _parent r = Some p ->
    exists rp, s !! p = Some rp /\ h ∈ _children rp.

(** "The child list contains no duplicates." *)
Definition children_distinct (s : gmap nat Hierarchy) : Prop :=
  forall h r, s !! h = Some r -> NoDup (_children r).

(** The heaps that the constructor, [addChild] and [removeChild] build. *)
Definition well_formed (s : gmap nat Hierarchy) : Prop :=
  children_sound s /\ parents_sound s /\ children_distinct s.

(** A hierarchy as its field initialisers leave it. *)
Definition new_Hierarchy (n : nat) : Hierarchy :=
  {| node := n; _parent := None; _children := [] |}.

(** Three hierarchies on nodes 11, 12 and 13, as constructed. *)
Definition three_new : gmap nat Hierarchy :=
  <[1 := new_Hierarchy 11]>
  (<[2 := new_Hierarchy 12]>
  (<[3 := new_Hierarchy 13]> ∅)).

(** The chain root -> mid -> leaf: hierarchies 1, 2, 3 on nodes 11, 12, 13. *)
Definition root_mid_leaf : gmap nat Hierarchy :=
  <[1 := mkHierarchy 11 None [2]]>
  (<[2 := mkHierarchy 12 (Some 1) [3]]>
  (<[3 := mkHierarchy 13 (Some 2) []]> ∅)).

(** The same three hierarchies before the leaf is attached. *)
Definition root_mid_and_leaf : gmap nat Hierarchy :=
  <[1 := mkHierarchy 11 None [2]]>
  (<[2 := mkHierarchy 12 (Some 1) []]>
  (<[3 := mkHierarchy 13 None []]> ∅)).

(** How many entries of a list are [x]. *)
Definition occurrences (x : nat) (l : list nat) : nat :=
  length (filter (fun y => y = x) l).

(** The event of [addChild] and of [removeChild]. *)
Definition added (this component : nat) : IHierarchyEvent :=
  {| type := "hierarchy"; add := true; remove := false;
     parent := this; child := component |}.

Definition removed (this component : nat) : IHierarchyEvent :=
  {| type := "hierarchy"; add := false; remove := true;
     parent := this; child := component |}.

(** The heap [addChild] leaves behind when its guard passes. *)
Definition attached (this component : nat) (rt : Hierarchy) (s : gmap nat Hierarchy)
    : gmap nat Hierarchy :=
  alter (set_children (push component (_children rt))) this
    (alter (set_parent (Some this)) component s).

(** The heap [removeChild] leaves behind when its guard passes. *)
Definition detached (this component : nat) (rt : Hierarchy) (s : gmap nat Hierarchy)
    : gmap nat Hierarchy :=
  alter (set_parent None) component
    (alter (set_children
              (splice (_children rt) (indexOf (_children rt) component) 1)) this s).

(** What the ancestor search is meant to find: the component of the first
    of the given ancestors, nearest first, whose node has one of the type. *)
Fixpoint nearest_component {T C : Type} (components_getArray : nat -> T -> list C)
    (s : gmap nat Hierarchy) (ancestors : list nat) (componentOrType : T)
    : option C :=
  match ancestors with
  | [] => None
  | a :: ancestors' =>
      match s !! a with
      | None => None
      | Some r =>
          match components_getArray (node r) componentOrType with
          | component :: _ => Some component
          | [] => nearest_component components_getArray s ancestors' componentOrType
          end
      end
  end.

(** Nodes 11, 12 and 13 without any component of the asked type. *)
Definition no_components (n : nat) (componentOrType : string) : list nat := [].

(** Node 10 alone has a component (number 7) of every asked type. *)
Definition top_has_component (n : nat) (componentOrType : string) : list nat :=
  if decide (n = 10) then [7] else [].

(** The chain top -> root -> mid -> leaf, [top] being hierarchy 0 on node 10. *)
Definition top_root_mid_leaf : gmap nat Hierarchy :=
  <[0 := mkHierarchy 10 None [1]]>
  (<[1 := mkHierarchy 11 (Some 0) [2]]>
  (<[2 := mkHierarchy 12 (Some 1) [3]]>
  (<[3 := mkHierarchy 13 (Some 2) []]> ∅))).

Section Search.

(** The component set of a node is kept by Node.ts, in an ObjectRegistry,
    and a component's [components] are those of its node.
    [components_getArray n type] stands for what [getArray(type)] gives on
    the node [n]: the components of the type, in insertion order.  The
    calls of [get(componentOrType)] pass no [nothrow]: they are
    [ObjectRegistry_get] with [nothrow = false]. *)
Context {T C : Type}.
Variable components_getArray : nat -> T -> list C.

(** The loop of [getRoot]:
<<
    while(root._parent) {
        root = root._parent;
    }
>> *)
Fixpoint getRoot_loop (fuel : nat) (s : gmap nat Hierarchy) (root : nat)
    : option (completion nat) :=
  match fuel with
  | O => None
  | S fuel' =>
      match s !! root with
      | None => Some (Throw TypeError)
      | Some r =>
          match _parent r with
          | Some p => getRoot_loop fuel' s p
          | None => Some (Return root)
          end
      end
  end.

(** [getRoot(componentOrType)], called on [this]; [root] is never null, so
    the lookup on the root's node is always made, and the call ends as the
    lookup does. *)
Definition getRoot (fuel : nat) (s : gmap nat Hierarchy) (this : nat)
    (componentOrType : T) : option (completion (option C)) :=
  match getRoot_loop fuel s this with
  | None => None
  | Some (Throw e) => Some (Throw e)
  | Some (Return root) =>
      match s !! root with
      | None => Some (Throw TypeError)
      | Some r =>
          Some (ObjectRegistry_get
                  (components_getArray (node r) componentOrType) false)
      end
  end.

(** The first loop of [_getChildComponent]:
<<
    for (let i = 0, n = children.length; i < n; ++i) {
        component = children[i].components.get(componentOrType);
        if (component) {
            return component;
        }
    }
>> *)
Fixpoint direct_component (s : gmap nat Hierarchy) (children : list nat)
    (componentOrType : T) : completion (option C) :=
  match children with
  | [] => Return None
  | child :: children' =>
      match s !! child with
      | None => Throw TypeError
      | Some ch =>
          match
            ObjectRegistry_get (components_getArray (node ch) componentOrType) false
          with
          | Throw e => Throw e
          | Return (Some component) => Return (Some component)
          | Return None => direct_component s children' componentOrType
          end
      end
  end.

(** The second loop of [_getChildComponent], over the results of the calls
    it makes: the first that is not null. *)
Fixpoint first_found (search : nat -> option (completion (option C)))
    (children : list nat) : option (completion (option C)) :=
  match children with
  | [] => Some (Return None)
  | child :: children' =>
      match search child with
      | None => None
      | Some (Throw e) => Some (Throw e)
      | Some (Return (Some component)) => Some (Return (Some component))
      | Some (Return None) => first_found search children'
      end
  end.

(** [_getChildComponent(hierarchy, componentOrType, recursive)]; the fuel
    bounds the depth of the nested calls. *)
Fixpoint _getChildComponent (fuel : nat) (s : gmap nat Hierarchy) (hierarchy : nat)
    (componentOrType : T) (recursive : bool) : option (completion (option C)) :=
  match fuel with
  | O => None
  | S fuel' =>
      match s !! hierarchy with
      | None => Some (Throw TypeError)
      | Some h =>
          let children := _children h in
          match direct_component s children componentOrType with
          | Throw e => Some (Throw e)
          | Return (Some component) => Some (Return (Some component))
          | Return None =>
              if recursive then
                first_found
                  (fun child => _getChildComponent fuel' s child componentOrType true)
                  children
              else Some (Return None)
          end
      end
  end.

(** The first loop of [_getChildComponents]: the components of the type on
    the nodes of the children, in the order of the children. *)
Fixpoint direct_components (s : gmap nat Hierarchy) (children : list nat)
    (componentOrType : T) : completion (list C) :=
  match children with
  | [] => Return []
  | child :: children' =>
      match s !! child with
      | None => Throw TypeError
      | Some ch =>
          match direct_components s children' componentOrType with
          | Throw e => Throw e
          | Return components =>
              Return (components_getArray (node ch) componentOrType ++ components)
          end
      end
  end.

(** The second loop of [_getChildComponents]: the results of the calls it
    makes, concatenated. *)
Fixpoint all_found (search : nat -> option (completion (list C)))
    (children : list nat) : option (completion (list C)) :=
  match children with
  | [] => Some (Return [])
  | child :: children' =>
      match search child with
      | None => None
      | Some (Throw e) => Some (Throw e)
      | Some (Return found) =>
          match all_found search children' with
          | None => None
          | Some (Throw e) => Some (Throw e)
          | Some (Return components) => Some (Return (found ++ components))
          end
      end
  end.

(** [_getChildComponents(hierarchy, componentOrType, recursive)] *)
Fixpoint _getChildComponents (fuel : nat) (s : gmap nat Hierarchy) (hierarchy : nat)
    (componentOrType : T) (recursive : bool) : option (completion (list C)) :=
  match fuel with
  | O => None
  | S fuel' =>
      match s !! hierarchy with
      | None => Some (Throw TypeError)
      | Some h =>
          let children := _children h in
          match direct_components s children componentOrType with
          | Throw e => Some (Throw e)
          | Return components =>
              if recursive then
                match
                  all_found
                    (fun child =>
                       _getChildComponents fuel' s child componentOrType true)
                    children
                with
                | None => None
                | Some (Throw e) => Some (Throw e)
                | Some (Return deeper) => Some (Return (components ++ deeper))
                end
              else Some (Return components)
          end
      end
  end.

(** [getChild], [getChildren] and [hasChildren], called on [this]. *)
Definition getChild (fuel : nat) (s : gmap nat Hierarchy) (this : nat)
    (componentOrType : T) (recursive : bool) : option (completion (option C)) :=
  _getChildComponent fuel s this componentOrType recursive.

Definition getChildren (fuel : nat) (s : gmap nat Hierarchy) (this : nat)
    (componentOrType : T) (recursive : bool) : option (completion (list C)) :=
  _getChildComponents fuel s this componentOrType recursive.

Definition hasChildren (fuel : nat) (s : gmap nat Hierarchy) (this : nat)
    (componentOrType : T) (recursive : bool) : option (completion bool) :=
  match _getChildComponent fuel s this componentOrType recursive with
  | None => None
  | Some (Throw e) => Some (Throw e)
  | Some (Return component) => Some (Return (bool_decide (is_Some component)))
  end.

End Search.

(** A tree of height below [d] hangs under [h]: every hierarchy reached
    through at most [d] children lists is in the heap, and the lists end. *)
Fixpoint tree (s : gmap nat Hierarchy) (d : nat) (h : nat) : Prop :=
  match d with
  | O => False
  | S d' =>
      match s !! h with
      | None => False
      | Some r => Forall (tree s d') (_children r)
      end
  end.

(** [descendant s h x]: [x] is a child of [h], or a child of a child, ... *)
Inductive descendant (s : gmap nat Hierarchy) : nat -> nat -> Prop :=
  | descendant_child h r c :
      s !! h = Some r -> c ∈ _children r -> descendant s h c
  | descendant_deeper h r c x :
      s !! h = Some r -> c ∈ _children r -> descendant s c x -> descendant s h x.

(** Node 13 has components 31 and 32 of every type, node 12 has 21. *)
Definition leaf_components (n : nat) (componentOrType : string) : list nat :=
  if decide (n = 13) then [31; 32] else if decide (n = 12) then [21] else [].


End Hierarchy.

(* ====================================================================== *)
(** ** System.ts *)

Module System.

(** What [_addComponent] reads of a component: its identity, the name of
    its type with the names of the types that type extends, and the
    [isSystemSingleton] flag its class declares. *)
Record Component : Type := mkComponent {
  id : nat;
  typeName : string;
  baseTypes : list string;
  isSystemSingleton : bool
}.

#[export] Instance Component_eq_dec : EqDecision Component.
Proof. solve_decision. Defined.

(** Modelled from the spec: ObjectRegistry, of the library @ff/core, whose
    source is not part of this repository.  "Mapping from a type
    identifier to an ordered sequence of live instances of that
    identifier"; "an instance appears under every type identifier it
    satisfies (its own type and ancestor types in its capability chain),
    and never duplicated within one identifier's sequence." *)
Definition satisfied (obj : Component) : list string :=
  typeName obj :: baseTypes obj.

Definition getArray (registry : gmap string (list Component)) (scope : string)
    : list Component :=
  default [] (registry !! scope).

Definition file_under (obj : Component) (registry : gmap string (list Component))
    (scope : string) : gmap string (list Component) :=
  let bucket := getArray registry scope in
  if decide (obj ∈ bucket) then registry
  else <[scope := bucket ++ [obj]]> registry.

(** Modelled from the spec: "[add(obj)] inserts obj under all of its
    satisfied type identifiers". *)
Definition add (obj : Component) (registry : gmap string (list Component))
    : gmap string (list Component) :=
  foldl (file_under obj) registry (satisfied obj).

(** Modelled from the spec: "[has(type)] boolean"; asked with a component,
    the type is the component's own. *)
Definition has (registry : gmap string (list Component)) (scope : Component) : bool :=
  match getArray registry (typeName scope) with
  | [] => false
  | _ :: _ => true
  end.

(** The registry of components of a System; the other fields play no part
    in [_addComponent]. *)
Record System : Type := mkSystem {
  components : gmap string (list Component)
}.

(** [_addComponent(component: Component)] *)
Definition _addComponent (component : Component) (this : System)
    : System * completion unit :=
  if isSystemSingleton component && has (components this) component then
    (this, Throw ("only one component of type '" +:+ typeName component
                  +:+ "' allowed per system"))
  else
    ({| components := add component (components this) |}, Return tt).

(** The error the spec calls DuplicateSingleton. *)
Definition DuplicateSingleton (component : Component) : string :=
  "only one component of type '" +:+ typeName component
  +:+ "' allowed per system".

(** Two cameras (not singletons) and two renderers (singletons). *)
Definition camera1 : Component := mkComponent 1 "Camera" ["Component"] false.
Definition camera2 : Component := mkComponent 2 "Camera" ["Component"] false.
Definition renderer1 : Component := mkComponent 3 "Renderer" ["Component"] true.
Definition renderer2 : Component := mkComponent 4 "Renderer" ["Component"] true.

Definition empty_system : System := {| components := ∅ |}.

(** What [findNodeByName] reads of a node. *)
Record Node : Type := mkNode {
  node_id : nat;
  name : string
}.

(** The loop of [findNodeByName]:
<<
    for (let i = 0, n = nodes.length; i < n; ++i) {
        if (nodes[i].name === name) {
            return nodes[i];
        }
    }
    return undefined;
>> *)
Fixpoint first_named (nodes : list Node) (wanted : string) : option Node :=
  match nodes with
  | [] => None
  | n :: nodes' => if decide (name n = wanted) then Some n else first_named nodes' wanted
  end.

(** [findNodeByName(name, nodeOrType?)]; [this.nodes.getArray] is the
    registry's and is taken as given.  [None] stands for [undefined]. *)
Definition findNodeByName (nodes_getArray : option string -> list Node)
    (wanted : string) (nodeOrType : option string) : option Node :=
  let nodes := nodes_getArray nodeOrType in
  first_named nodes wanted.

End System.

(* ====================================================================== *)
(** ** components/CGraph.ts *)

Module CGraph.

(** The values a serialized record is made of. *)
#[warnings="-register-all"]
Inductive JsValue : Type :=
  | JUndefined
  | JNull
  | JBoolean (b : bool)
  | JNumber (z : Z)
  | JString (s : string)
  | JArray (items : list JsValue) (properties : list (string * JsValue))
  | JObject (fields : list (string * JsValue)).

Fixpoint lookup_field (fields : list (string * JsValue)) (key : string)
    : option JsValue :=
  match fields with
  | [] => None
  | (k, v) :: fields' => if decide (k = key) then Some v else lookup_field fields' key
  end.

(** [json[key]], with [None] for [undefined].  An array answers with its
    length, with the item at an index, and with the properties it was
    given besides. *)
Definition get_field (json : JsValue) (key : string) : option JsValue :=
  match json with
  | JObject fields => lookup_field fields key
  | JArray items properties =>
      if decide (key = "length") then Some (JNumber (Z.of_nat (length items)))
      else
        match list_find (fun i => pretty i = key) (seq 0 (length items)) with
        | Some (_, i) => items !! i
        | None => lookup_field properties key
        end
  | _ => None
  end.

(** The fields of an object after [object[key] = value]: the field keeps
    its place when the object has it, and comes last when it is new. *)
Fixpoint put_field (fields : list (string * JsValue)) (key : string)
    (value : JsValue) : list (string * JsValue) :=
  match fields with
  | [] => [(key, value)]
  | (k, v) :: fields' =>
      if decide (k = key) then (k, value) :: fields'
      else (k, v) :: put_field fields' key value
  end.

(** [json.graph = value], in the strict mode of a class body.  An object
    takes the property, and so does an array, ["graph"] being neither an
    index nor ["length"]; on [undefined] and [null] the assignment throws a
    TypeError, and on a boolean, a number or a string it throws one too. *)
Definition set_graph (json value : JsValue) : option JsValue :=
  match json with
  | JObject fields => Some (JObject (put_field fields "graph" value))
  | JArray items properties =>
      Some (JArray items (put_field properties "graph" value))
  | JUndefined | JNull | JBoolean _ | JNumber _ | JString _ => None
  end.

Section Host.

(** Graph.ts and Component.ts are not part of the listing.  The nested
    graph, the update context, the graph's tick pass and the two [deflate]
    methods that [CGraph] calls are taken as given.  The tick pass of the
    nested graph runs the components of that graph, which see the heap the
    host lives in: it is handed the host as the call finds it. *)
Variables Graph IUpdateContext : Type.

(** [changed] is inherited from Component; [graph] and [_root] are CGraph's. *)
Record CGraph : Type := mkCGraph {
  changed : bool;
  graph : Graph;
  _root : option nat
}.

Variable Graph_tick : IUpdateContext -> CGraph -> CGraph * bool.
Variable Graph_deflate : Graph -> JsValue.
Variable Component_deflate : CGraph -> JsValue.

Definition set_changed (b : bool) (this : CGraph) : CGraph :=
  {| changed := b; graph := graph this; _root := _root this |}.

(** [tick(context: IUpdateContext): boolean]
<<
    this.changed = true;
    return this.graph.tick(context);
>> *)
Definition tick (context : IUpdateContext) (this : CGraph) : CGraph * bool :=
  let this := set_changed true this in
  Graph_tick context this.

(** [deflate()]
<<
    const json = super.deflate();
    json.graph = this.graph.deflate();
>>
    The body has no [return]: a call that ends normally yields [undefined]. *)
Definition deflate (this : CGraph) : completion JsValue :=
  let json := Component_deflate this in
  match set_graph json (Graph_deflate (graph this)) with
  | Some json => Return JUndefined
  | None => Throw TypeError
  end.

End Host.

Arguments mkCGraph {Graph} changed graph _root.
Arguments changed {Graph} c.
Arguments graph {Graph} c.
Arguments _root {Graph} c.
Arguments set_changed {Graph} b this.

(** A host whose inherited [deflate] gives [{ id: "host" }] and whose
    nested graph (here: the list of its node names) deflates to
    [{ nodes: [...] }]. *)
Definition names_deflate (names : list string) : JsValue :=
  JObject [("nodes", JArray (JString <$> names) [])].

Definition host_deflate (this : CGraph (list string)) : JsValue :=
  JObject [("id", JString "host")].

Definition host : CGraph (list string) :=
  {| changed := false; graph := ["Scene"; "Camera"]; _root := None |}.

End CGraph.

(* ====================================================================== *)
(** ** SelectionController.ts *)

Module SelectionController.

Section Controller.

(** Nodes and components are compared by identity. *)
Context {Node Component : Type}.
Context `{EqDecision Node, EqDecision Component}.

(** What the controller sends out, in the order of the calls:
    [this.emit("node", { node, selected })],
    [this.emit("component", { component, selected })],
    [this.system.emitComponentEvent(component, name, { component, selected })]
    and [this.emit("update")]. *)
Inductive emission : Type :=
  | Emit_node (node : Node) (selected : bool)
  | Emit_component (component : Component) (selected : bool)
  | System_emitComponentEvent (target : Component) (name : string)
      (component : Component) (selected : bool)
  | Emit_update.

(** The fields of the controller that the selection methods use.  A
    JavaScript [Set] iterates in insertion order: it is a list without
    repetition, the oldest element first. *)
Record SelectionController : Type := mkController {
  multiSelect : bool;
  exclusiveSelect : bool;
  _selectedNodes : list Node;
  _selectedComponents : list Component
}.

(** The controller as its field initialisers leave it. *)
Definition new_SelectionController : SelectionController :=
  {| multiSelect := false; exclusiveSelect := true;
     _selectedNodes := []; _selectedComponents := [] |}.

(** [ISystemNodeEvent] and [ISystemComponentEvent], as far as they are read. *)
Record ISystemNodeEvent : Type := mkNodeEvent {
  node_remove : bool;
  node : Node
}.

Record ISystemComponentEvent : Type := mkComponentEvent {
  component_remove : bool;
  component : Component
}.

Definition selectNodeEvent : string := "node".
Definition selectComponentEvent : string := "component".
Definition updateEvent : string := "update".

(** [Set.prototype.has], [add] and [delete]. *)
Definition set_has {A} `{EqDecision A} (s : list A) (x : A) : bool :=
  bool_decide (x ∈ s).

Definition set_add {A} `{EqDecision A} (x : A) (s : list A) : list A :=
  if set_has s x then s else s ++ [x].

Definition set_delete {A} `{EqDecision A} (x : A) (s : list A) : list A :=
  filter (fun y => y <> x) s.

Definition emitSelectNodeEvent (node : Node) (selected : bool) : list emission :=
  [Emit_node node selected].

Definition emitSelectComponentEvent (component : Component) (selected : bool)
    : list emission :=
  [Emit_component component selected;
   System_emitComponentEvent component selectNodeEvent component selected].

(** [selectNode(node: Node, toggle: boolean = false)] *)
Definition selectNode (node : Node) (toggle : bool) (this : SelectionController)
    : SelectionController * list emission :=
  let selectedNodes := _selectedNodes this in
  let multi := multiSelect this && toggle in
  if set_has selectedNodes node then
    if multi then
      ({| multiSelect := multiSelect this; exclusiveSelect := exclusiveSelect this;
          _selectedNodes := set_delete node selectedNodes;
          _selectedComponents := _selectedComponents this |},
       emitSelectNodeEvent node false)
    else (this, [])
  else
    let '(selectedComponents, log1) :=
      if exclusiveSelect this then
        ([], flat_map (fun c => emitSelectComponentEvent c false)
               (_selectedComponents this))
      else (_selectedComponents this, []) in
    let '(selectedNodes, log2) :=
      if negb multi then
        ([], flat_map (fun n => emitSelectNodeEvent n false) selectedNodes)
      else (selectedNodes, []) in
    ({| multiSelect := multiSelect this; exclusiveSelect := exclusiveSelect this;
        _selectedNodes := set_add node selectedNodes;
        _selectedComponents := selectedComponents |},
     log1 ++ log2 ++ emitSelectNodeEvent node true).

(** [selectComponent(component: Component, toggle: boolean = false)] *)
Definition selectComponent (component : Component) (toggle : bool)
    (this : SelectionController) : SelectionController * list emission :=
  let selectedComponents := _selectedComponents this in
  let multi := multiSelect this && toggle in
  if set_has selectedComponents component then
    if multi then
      ({| multiSelect := multiSelect this; exclusiveSelect := exclusiveSelect this;
          _selectedNodes := _selectedNodes this;
          _selectedComponents := set_delete component selectedComponents |},
       emitSelectComponentEvent component false)
    else (this, [])
  else
    let '(selectedNodes, log1) :=
      if exclusiveSelect this then
        ([], flat_map (fun n => emitSelectNodeEvent n false) (_selectedNodes this))
      else (_selectedNodes this, []) in
    let '(selectedComponents, log2) :=
      if negb multi then
        ([], flat_map (fun c => emitSelectComponentEvent c false) selectedComponents)
      else (selectedComponents, []) in
    ({| multiSelect := multiSelect this; exclusiveSelect := exclusiveSelect this;
        _selectedNodes := selectedNodes;
        _selectedComponents := set_add component selectedComponents |},
     log1 ++ log2 ++ emitSelectComponentEvent component true).

(** [onSystemNode(event: ISystemNodeEvent)] *)
Definition onSystemNode (event : ISystemNodeEvent) (this : SelectionController)
    : SelectionController * list emission :=
  let '(this, log) :=
    if node_remove event && set_has (_selectedNodes this) (node event) then
      selectNode (node event) false this
    else (this, []) in
  (this, log ++ [Emit_update]).

(** [onSystemComponent(event: ISystemComponentEvent)] *)
Definition onSystemComponent (event : ISystemComponentEvent)
    (this : SelectionController) : SelectionController * list emission :=
  let '(this, log) :=
    if component_remove event
       && set_has (_selectedComponents this) (component event) then
      selectComponent (component event) false this
    else (this, []) in
  (this, log ++ [Emit_update]).

(** A call on the controller, and a run of calls with the log they leave. *)
Inductive call : Type :=
  | SelectNode (node : Node) (toggle : bool)
  | SelectComponent (component : Component) (toggle : bool)
  | OnSystemNode (event : ISystemNodeEvent)
  | OnSystemComponent (event : ISystemComponentEvent).

Definition perform (c : call) (this : SelectionController)
    : SelectionController * list emission :=
  match c with
  | SelectNode node toggle => selectNode node toggle this
  | SelectComponent component toggle => selectComponent component toggle this
  | OnSystemNode event => onSystemNode event this
  | OnSystemComponent event => onSystemComponent event this
  end.

Fixpoint run (calls : list call) (this : SelectionController)
    : SelectionController * list emission :=
  match calls with
  | [] => (this, [])
  | c :: calls' =>
      let '(this1, log1) := perform c this in
      let '(this2, log2) := run calls' this1 in
      (this2, log1 ++ log2)
  end.

(** In exclusive mode: no node is selected, or no component is. *)
Definition one_kind_selected (this : SelectionController) : Prop :=
  _selectedNodes this = [] \/ _selectedComponents this = [].

End Controller.

Section Observer.

Context {Node Component : Type}.
Context `{EqDecision Node, EqDecision Component}.

(** What a listener to the controller's "node" events knows of the set of
    selected nodes once it has heard an emission, and likewise for the
    "component" events. *)
Definition heard_node (nodes : list Node) (e : @emission Node Component)
    : list Node :=
  match e with
  | Emit_node n true => set_add n nodes
  | Emit_node n false => set_delete n nodes
  | _ => nodes
  end.

Definition heard_component (components : list Component)
    (e : @emission Node Component) : list Component :=
  match e with
  | Emit_component c true => set_add c components
  | Emit_component c false => set_delete c components
  | _ => components
  end.

Definition replay_nodes (log : list (@emission Node Component))
    (nodes : list Node) : list Node :=
  foldl heard_node nodes log.

Definition replay_components (log : list (@emission Node Component))
    (components : list Component) : list Component :=
  foldl heard_component components log.

(** An emission of the "node" event of the controller. *)
Definition is_node_emission (e : @emission Node Component) : bool :=
  match e with
  | Emit_node _ _ => true
  | _ => false
  end.

End Observer.

(** A controller over numbered nodes and components, fresh and after
    [selectNode(1)]. *)
Definition fresh : @SelectionController nat nat := new_SelectionController.

Definition node1_selected : @SelectionController nat nat :=
  fst (selectNode 1 false fresh).

(** A controller in multi-select mode with node 1 and component 5 selected. *)
Definition multi_selecting : @SelectionController nat nat :=
  {| multiSelect := true; exclusiveSelect := false;
     _selectedNodes := [1]; _selectedComponents := [5] |}.

End SelectionController.

(* ###################################################################### *)
(** * Part II: properties *)

(* ====================================================================== *)
(** ** Properties of Hierarchy.ts *)

Module HierarchyFacts.

Import Hierarchy.

(** *** The multicast loop *)

Lemma multicast_done fuel s event log :
  multicast fuel s event None log
  = Some {| final := s; emitted := log; result := Return tt |}.
Proof. by destruct fuel. Qed.

Lemma multicast_final fuel : forall s event component log o,
  multicast fuel s event component log = Some o -> final o = s.
Proof.
  induction fuel as [|fuel IH]; intros s event [c|] log o; simpl;
    try (intros [= <-]; done).
  destruct (s !! c) as [h|]; [apply IH | by intros [= <-]].
Qed.

Lemma multicast_chain s event c l :
  chain s c l -> forall fuel log, length l <= fuel ->
  multicast fuel s event (Some c) log
  = Some {| final := s; emitted := log ++ flat_map (emissions_at s event) l;
            result := Return tt |}.
Proof.
  induction 1 as [h r Hh Hp | h r p l Hh Hp _ IH]; intros [|fuel] log Hlen;
    simpl in Hlen; try lia; simpl; unfold emissions_at at 1; rewrite Hh, Hp.
  - rewrite multicast_done. by rewrite app_nil_r.
  - rewrite IH by lia. by rewrite <- app_assoc.
Qed.

Lemma chain_head s h l : chain s h l -> h ∈ l.
Proof. destruct 1; apply list_elem_of_here. Qed.

(** A chain only depends on the parent references of its members. *)
Lemma chain_ext s s' h l :
  chain s h l ->
  (forall x, x ∈ l -> _parent <$> s' !! x = _parent <$> s !! x) ->
  chain s' h l.
Proof.
  induction 1 as [h r Hh Hp | h r p l Hh Hp _ IH]; intros Hsame.
  - pose proof (Hsame h (list_elem_of_here _ _)) as E. rewrite Hh in E.
    destruct (s' !! h) as [r'|] eqn:Hh'; simplify_eq/=.
    apply (chain_root s' h r'); congruence.
  - pose proof (Hsame h (list_elem_of_here _ _)) as E. rewrite Hh in E.
    destruct (s' !! h) as [r'|] eqn:Hh'; simplify_eq/=.
    apply (chain_step s' h r' p); [done | congruence |].
    apply IH. intros x Hx. apply Hsame. by apply list_elem_of_further.
Qed.

(** *** addChild *)

Lemma addChild_guard_passed fuel s this component rt rc :
  s !! this = Some rt -> s !! component = Some rc -> _parent rc = None ->
  addChild fuel this component s
  = multicast fuel (attached this component rt s) (added this component)
      (Some component) [].
Proof.
  intros Ht Hc Hp. unfold addChild, attached. rewrite Hc, Hp. cbn zeta.
  rewrite lookup_alter. case_decide as E.
  - subst. rewrite Ht. done.
  - rewrite Ht. done.
Qed.

Lemma attached_parent s this component rt rc :
  s !! this = Some rt -> s !! component = Some rc ->
  exists rc', attached this component rt s !! component = Some rc'
              /\ _parent rc' = Some this.
Proof.
  intros Ht Hc. unfold attached.
  destruct (decide (this = component)) as [->|Hne].
  - rewrite !lookup_alter_eq, Hc. by eexists.
  - rewrite lookup_alter_ne by done. rewrite lookup_alter_eq, Hc. by eexists.
Qed.

Lemma attached_children s this component rt :
  s !! this = Some rt ->
  exists rt', attached this component rt s !! this = Some rt'
              /\ _children rt' = _children rt ++ [component].
Proof.
  intros Ht. unfold attached. rewrite lookup_alter_eq.
  rewrite lookup_alter. case_decide; simplify_eq; rewrite Ht; by eexists.
Qed.

Lemma attached_parent_other s this component rt x :
  x <> component ->
  _parent <$> attached this component rt s !! x = _parent <$> s !! x.
Proof.
  intros Hne. unfold attached. rewrite lookup_alter. case_decide.
  - subst x. rewrite lookup_alter_ne by done. by destruct (s !! this).
  - by rewrite lookup_alter_ne.
Qed.

Lemma occurrences_app x l1 l2 :
  occurrences x (l1 ++ l2) = occurrences x l1 + occurrences x l2.
Proof. unfold occurrences. by rewrite filter_app, length_app. Qed.

Lemma occurrences_absent x l : x ∉ l -> occurrences x l = 0.
Proof.
  unfold occurrences. induction l as [|y l IH]; [done|].
  rewrite not_elem_of_cons. intros [Hne Hl].
  rewrite filter_cons. destruct (decide (y = x)); [congruence | auto].
Qed.

Lemma occurrences_singleton x : occurrences x [x] = 1.
Proof. unfold occurrences. rewrite filter_cons. by rewrite decide_True. Qed.

Lemma children_sound_lookup s h r c :
  children_sound s -> s !! h = Some r -> c ∈ _children r ->
  _parent <$> s !! c = Some (Some h).
Proof.
  intros Hs Hh Hc. pose proof (map_Forall_lookup_1 _ _ _ _ Hs Hh) as Hall.
  simpl in Hall. rewrite Forall_forall in Hall. by apply Hall.
Qed.

(** C5: in a heap whose children lists are sound, for hierarchies A and B
    where B has no parent: after [A.addChild(B)], B's parent is A and A's
    children hold B exactly once, and a second [A.addChild(B)] throws
    "component should not have a parent" (the structural violation) without
    changing anything.  When A lies in a tree of which B is no member, the
    call returns, having emitted the event at B and at every ancestor. *)
Theorem addChild_sets_parent_and_refuses_second
    (s : gmap nat Hierarchy) (A B : nat) (rA rB : Hierarchy) :
  s !! A = Some rA -> s !! B = Some rB -> _parent rB = None ->
  children_sound s ->
  (forall fuel o, addChild fuel A B s = Some o ->
     (exists rB', final o !! B = Some rB' /\ _parent rB' = Some A) /\
     (exists rA', final o !! A = Some rA' /\ occurrences B (_children rA') = 1) /\
     (forall fuel', addChild fuel' A B (final o)
        = Some {| final := final o; emitted := [];
                  result := Throw "component should not have a parent" |}))
  /\ (forall l, chain s A l -> B ∉ l ->
        exists o, addChild (S (length l)) A B s = Some o
          /\ result o = Return tt
          /\ emitted o = flat_map (emissions_at (final o) (added A B)) (B :: l)).
Proof.
  intros HA HB Hp Hs. split.
  - intros fuel o Ho. rewrite (addChild_guard_passed _ _ _ _ _ _ HA HB Hp) in Ho.
    apply multicast_final in Ho. rewrite Ho.
    destruct (attached_parent s A B rA rB HA HB) as (rB' & HB' & Hp').
    destruct (attached_children s A B rA HA) as (rA' & HA' & Hc').
    split; [by exists rB' |]. split.
    + exists rA'. split; [done |]. rewrite Hc', occurrences_app.
      rewrite occurrences_singleton, occurrences_absent; [done |].
      intros Hin. pose proof (children_sound_lookup _ _ _ _ Hs HA Hin) as E.
      rewrite HB in E. simpl in E. congruence.
    + intros fuel'. unfold addChild. by rewrite HB', Hp'.
  - intros l Hl Hnot.
    rewrite (addChild_guard_passed _ _ _ _ _ _ HA HB Hp).
    destruct (attached_parent s A B rA rB HA HB) as (rB' & HB' & Hp').
    assert (chain (attached A B rA s) B (B :: l)) as Hchain.
    { apply (chain_step _ B rB' A); [done | done |].
      apply (chain_ext s); [done |].
      intros x Hx. apply attached_parent_other. intros ->. done. }
    eexists. split; [apply (multicast_chain _ _ _ _ Hchain); simpl; lia |].
    done.
Qed.

(** Nothing in [addChild] looks for a cycle: a hierarchy without parent
    that is given to itself becomes its own parent, and the loop that
    follows the parents does not end. *)
Lemma multicast_own_parent s event c r :
  s !! c = Some r -> _parent r = Some c ->
  forall fuel log, multicast fuel s event (Some c) log = None.
Proof.
  intros Hc Hp. induction fuel as [|fuel IH]; intros log; simpl; [done |].
  rewrite Hc, Hp. apply IH.
Qed.

Lemma addChild_to_itself_diverges s this rt :
  s !! this = Some rt -> _parent rt = None ->
  forall fuel, addChild fuel this this s = None.
Proof.
  intros Ht Hp fuel. rewrite (addChild_guard_passed _ _ _ _ _ _ Ht Ht Hp).
  destruct (attached_parent s this this rt rt Ht Ht) as (r' & Hr' & Hp').
  by apply (multicast_own_parent _ _ _ r').
Qed.

(** Where every hierarchy that the loop reaches has a parent, the loop
    does not end. *)
Lemma multicast_no_root s event (P : nat -> Prop) :
  (forall c, P c -> exists r p, s !! c = Some r /\ _parent r = Some p /\ P p) ->
  forall fuel c log, P c -> multicast fuel s event (Some c) log = None.
Proof.
  intros Hclosed. induction fuel as [|fuel IH]; intros c log Hc; simpl; [done |].
  destruct (Hclosed c Hc) as (r & p & -> & -> & Hp). by apply IH.
Qed.

(** In the chain root -> mid -> leaf the root has no parent and the
    children lists are sound, and [leaf.addChild(root)] never returns: the
    root becomes a child of its own descendant, and the loop goes round. *)
Lemma addChild_root_under_leaf_never_returns :
  root_mid_leaf !! 1 = Some (mkHierarchy 11 None [2])
  /\ root_mid_leaf !! 3 = Some (mkHierarchy 13 (Some 2) [])
  /\ children_sound root_mid_leaf
  /\ (forall fuel, addChild fuel 3 1 root_mid_leaf = None).
Proof.
  split; [reflexivity |]. split; [reflexivity |]. split.
  { apply (bool_decide_unpack _). vm_compute. exact I. }
  intros fuel.
  rewrite (addChild_guard_passed fuel root_mid_leaf 3 1
             (mkHierarchy 13 (Some 2) []) (mkHierarchy 11 None [2]))
    by reflexivity.
  apply (multicast_no_root _ _ (fun c => c = 1 \/ c = 2 \/ c = 3)); [| by left].
  intros c [-> | [-> | ->]].
  - exists (mkHierarchy 11 (Some 3) [2]), 3. repeat split; auto.
  - exists (mkHierarchy 12 (Some 1) [3]), 1. repeat split; auto.
  - exists (mkHierarchy 13 (Some 2) [1]), 2. repeat split; auto.
Qed.

(** At the chain root -> mid with a free leaf, [mid.addChild(leaf)]. *)
Lemma addChild_sets_parent_and_refuses_second_witness :
  (forall fuel o, addChild fuel 2 3 root_mid_and_leaf = Some o ->
     (exists rB', final o !! 3 = Some rB' /\ _parent rB' = Some 2) /\
     (exists rA', final o !! 2 = Some rA' /\ occurrences 3 (_children rA') = 1) /\
     (forall fuel', addChild fuel' 2 3 (final o)
        = Some {| final := final o; emitted := [];
                  result := Throw "component should not have a parent" |}))
  /\ (exists o, addChild 3 2 3 root_mid_and_leaf = Some o
        /\ result o = Return tt
        /\ emitted o = flat_map (emissions_at (final o) (added 2 3)) [3; 2; 1]).
Proof.
  destruct (addChild_sets_parent_and_refuses_second root_mid_and_leaf 2 3
              (mkHierarchy 12 (Some 1) []) (mkHierarchy 13 None []))
    as [Hpost Hret].
  - reflexivity.
  - reflexivity.
  - reflexivity.
  - apply (bool_decide_unpack _). vm_compute. exact I.
  - split; [exact Hpost |].
    apply (Hret [2; 1]).
    + repeat econstructor.
    + apply (bool_decide_unpack _). vm_compute. exact I.
Defined.

(** *** removeChild *)

Lemma removeChild_guard_passed fuel s this component rt rc :
  s !! this = Some rt -> s !! component = Some rc -> _parent rc = Some this ->
  removeChild fuel this component s
  = multicast fuel (detached this component rt s) (removed this component)
      (Some component) [].
Proof.
  intros Ht Hc Hp. unfold removeChild, detached. rewrite Hc.
  rewrite decide_True by done. by rewrite Ht.
Qed.

Lemma detached_parent s this component rt rc :
  s !! component = Some rc ->
  exists rc', detached this component rt s !! component = Some rc'
              /\ _parent rc' = None /\ node rc' = node rc.
Proof.
  intros Hc. unfold detached. rewrite lookup_alter_eq.
  rewrite lookup_alter. case_decide; simplify_eq; rewrite Hc; by eexists.
Qed.

Lemma detached_children s this component rt :
  s !! this = Some rt ->
  exists rt', detached this component rt s !! this = Some rt'
              /\ _children rt'
                 = splice (_children rt) (indexOf (_children rt) component) 1.
Proof.
  intros Ht. unfold detached. rewrite lookup_alter. case_decide.
  - simplify_eq. rewrite lookup_alter_eq, Ht. by eexists.
  - rewrite lookup_alter_eq, Ht. by eexists.
Qed.

(** The loop of [removeChild] starts at a component whose parent has just
    been cleared: it runs once, whatever the ancestors were. *)
Lemma removeChild_emits_at_child_only fuel s this component rt rc :
  s !! this = Some rt -> s !! component = Some rc -> _parent rc = Some this ->
  removeChild (S fuel) this component s
  = Some {| final := detached this component rt s;
            emitted := [(AtComponent component, removed this component);
                        (AtNode (node rc), removed this component)];
            result := Return tt |}.
Proof.
  intros Ht Hc Hp. rewrite (removeChild_guard_passed _ _ _ _ _ _ Ht Hc Hp).
  destruct (detached_parent s this component rt rc Hc) as (rc' & Hc' & Hp' & Hn).
  simpl. rewrite Hc', Hp', Hn. apply multicast_done.
Qed.

Lemma indexOf_first l x :
  x ∈ l ->
  exists l1 l2, l = l1 ++ x :: l2 /\ (x ∉ l1)
                /\ indexOf l x = Z.of_nat (length l1).
Proof.
  induction l as [|y l IH]; [intros Hin; by apply elem_of_nil in Hin |].
  intros Hin. simpl. destruct (decide (y = x)) as [->|Hne].
  - exists [], l. split; [done |]. split; [apply not_elem_of_nil | done].
  - apply elem_of_cons in Hin as [->|Hin]; [done |].
    destruct (IH Hin) as (l1 & l2 & -> & Hl1 & Hi).
    exists (y :: l1), l2. split; [done |]. split.
    + rewrite not_elem_of_cons. split; [congruence | done].
    + rewrite Hi. destruct (Z.ltb_spec (Z.of_nat (length l1)) 0); simpl; lia.
Qed.

Lemma indexOf_absent l x : x ∉ l -> indexOf l x = (-1)%Z.
Proof.
  induction l as [|y l IH]; [done |].
  rewrite not_elem_of_cons. intros [Hne Hl]. simpl.
  rewrite decide_False by congruence. by rewrite IH.
Qed.

Lemma splice_one_at l1 x l2 :
  splice (l1 ++ x :: l2) (Z.of_nat (length l1)) 1 = l1 ++ l2.
Proof.
  unfold splice. rewrite length_app. simpl length.
  destruct (Z.ltb_spec (Z.of_nat (length l1)) 0) as [|_]; [lia |].
  rewrite Z.min_l by lia.
  replace (Z.max 0 (Z.min 1 (Z.of_nat (length l1 + S (length l2))
                             - Z.of_nat (length l1)))) with 1%Z by lia.
  rewrite Nat2Z.id.
  replace (Z.to_nat (Z.of_nat (length l1) + 1)) with (length l1 + 1) by lia.
  rewrite take_app_length. rewrite drop_app_ge by lia.
  replace (length l1 + 1 - length l1) with 1 by lia. reflexivity.
Qed.

(** [children.splice(children.indexOf(x), 1)] takes the first [x] out. *)
Lemma splice_indexOf_removes l x :
  x ∈ l -> NoDup l -> x ∉ splice l (indexOf l x) 1.
Proof.
  intros Hin Hnd. destruct (indexOf_first l x Hin) as (l1 & l2 & -> & Hl1 & ->).
  rewrite splice_one_at. apply NoDup_app in Hnd as (_ & Hdisj & Hnd2).
  apply NoDup_cons in Hnd2 as [Hl2 _]. rewrite not_elem_of_app. done.
Qed.

(** The part of [removeChild] that works: in a heap where the child is
    listed once among the receiver's children, a successful call takes it
    out of the list and clears its parent. *)
Lemma removeChild_detaches fuel s this component rt rc o :
  s !! this = Some rt -> s !! component = Some rc -> _parent rc = Some this ->
  component ∈ _children rt -> NoDup (_children rt) ->
  removeChild fuel this component s = Some o ->
  (exists rc', final o !! component = Some rc' /\ _parent rc' = None) /\
  (exists rt', final o !! this = Some rt' /\ component ∉ _children rt').
Proof.
  intros Ht Hc Hp Hin Hnd Ho.
  rewrite (removeChild_guard_passed _ _ _ _ _ _ Ht Hc Hp) in Ho.
  apply multicast_final in Ho. rewrite Ho. split.
  - destruct (detached_parent s this component rt rc Hc) as (rc' & ? & ? & _).
    by exists rc'.
  - destruct (detached_children s this component rt Ht) as (rt' & ? & Hch).
    exists rt'. split; [done |]. rewrite Hch. by apply splice_indexOf_removes.
Qed.

(** *** Well-formed heaps *)

Lemma children_sound_intro s :
  (forall h r c, s !! h = Some r -> c ∈ _children r ->
     _parent <$> s !! c = Some (Some h)) ->
  children_sound s.
Proof.
  intros Hall. apply map_Forall_lookup_2. intros h r Hh.
  apply Forall_forall. intros c Hc. by apply (Hall h r c).
Qed.

Lemma attached_lookup s this component rt h :
  s !! this = Some rt ->
  attached this component rt s !! h
  = (fun r => {| node := node r;
                 _parent := if decide (h = component) then Some this
                            else _parent r;
                 _children := if decide (h = this)
                              then _children rt ++ [component]
                              else _children r |}) <$> s !! h.
Proof.
  intros Ht. unfold attached.
  destruct (decide (h = this)) as [E1|H1];
    destruct (decide (h = component)) as [E2|H2]; subst.
  - rewrite !lookup_alter_eq, Ht. done.
  - rewrite lookup_alter_eq, lookup_alter_ne, Ht by done. done.
  - rewrite lookup_alter_ne, lookup_alter_eq by done.
    destruct (s !! component) as [[]|]; done.
  - rewrite !lookup_alter_ne by done. destruct (s !! h) as [[]|]; done.
Qed.

Lemma detached_lookup s this component rt h :
  s !! this = Some rt ->
  detached this component rt s !! h
  = (fun r => {| node := node r;
                 _parent := if decide (h = component) then None else _parent r;
                 _children := if decide (h = this)
                              then splice (_children rt)
                                     (indexOf (_children rt) component) 1
                              else _children r |}) <$> s !! h.
Proof.
  intros Ht. unfold detached.
  destruct (decide (h = this)) as [E1|H1];
    destruct (decide (h = component)) as [E2|H2]; subst.
  - rewrite !lookup_alter_eq, Ht. done.
  - rewrite lookup_alter_ne, lookup_alter_eq, Ht by done. done.
  - rewrite lookup_alter_eq, lookup_alter_ne by done.
    destruct (s !! component) as [[]|]; done.
  - rewrite !lookup_alter_ne by done. destruct (s !! h) as [[]|]; done.
Qed.

Lemma well_formed_empty : well_formed ∅.
Proof.
  split; [apply map_Forall_empty |].
  split; intros h r; rewrite lookup_empty; congruence.
Qed.

(** Constructing a hierarchy keeps the heap well formed. *)
Lemma well_formed_new s h n :
  well_formed s -> s !! h = None -> well_formed (<[h := new_Hierarchy n]> s).
Proof.
  intros (Hc & Hp & Hd) Hfresh. split; [| split].
  - apply children_sound_intro. intros x r c Hx Hin.
    rewrite lookup_insert in Hx. case_decide; simplify_eq.
    { by apply elem_of_nil in Hin. }
    pose proof (children_sound_lookup _ _ _ _ Hc Hx Hin) as E.
    rewrite lookup_insert_ne by (intros <-; by rewrite Hfresh in E). done.
  - intros x r p Hx Hpar. rewrite lookup_insert in Hx.
    case_decide; simplify_eq.
    destruct (Hp _ _ _ Hx Hpar) as (rp & Hrp & Hin).
    exists rp. split; [| done]. rewrite lookup_insert_ne by congruence. done.
  - intros x r Hx. rewrite lookup_insert in Hx.
    case_decide; simplify_eq; [apply NoDup_nil_2 | by apply (Hd x)].
Qed.

(** When [addChild] returns, its guard had passed. *)
Lemma addChild_returned fuel s this component o :
  addChild fuel this component s = Some o -> result o = Return tt ->
  exists rt rc, s !! this = Some rt /\ s !! component = Some rc
    /\ _parent rc = None /\ final o = attached this component rt s.
Proof.
  intros Ho Hres.
  destruct (s !! component) as [rc|] eqn:Hc; cycle 1.
  { unfold addChild in Ho. rewrite Hc in Ho. by simplify_eq. }
  destruct (_parent rc) as [q|] eqn:Hp.
  { unfold addChild in Ho. rewrite Hc, Hp in Ho. by simplify_eq. }
  destruct (s !! this) as [rt|] eqn:Ht; cycle 1.
  { unfold addChild in Ho. rewrite Hc, Hp in Ho. cbn zeta in Ho.
    rewrite lookup_alter_ne, Ht in Ho by congruence. by simplify_eq. }
  exists rt, rc. repeat split; [done |].
  rewrite (addChild_guard_passed _ _ _ _ _ _ Ht Hc Hp) in Ho.
  by apply multicast_final in Ho.
Qed.

Lemma removeChild_returned fuel s this component o :
  removeChild fuel this component s = Some o -> result o = Return tt ->
  exists rt rc, s !! this = Some rt /\ s !! component = Some rc
    /\ _parent rc = Some this /\ final o = detached this component rt s.
Proof.
  intros Ho Hres.
  destruct (s !! component) as [rc|] eqn:Hc; cycle 1.
  { unfold removeChild in Ho. rewrite Hc in Ho. by simplify_eq. }
  destruct (decide (_parent rc = Some this)) as [Hp|Hp]; cycle 1.
  { unfold removeChild in Ho. rewrite Hc, decide_False in Ho by done.
    by simplify_eq. }
  destruct (s !! this) as [rt|] eqn:Ht; cycle 1.
  { unfold removeChild in Ho. rewrite Hc, decide_True, Ht in Ho by done.
    by simplify_eq. }
  exists rt, rc. repeat split; [done |].
  rewrite (removeChild_guard_passed _ _ _ _ _ _ Ht Hc Hp) in Ho.
  by apply multicast_final in Ho.
Qed.

Lemma splice_indexOf_first l x :
  x ∈ l ->
  exists l1 l2, l = l1 ++ x :: l2 /\ (x ∉ l1)
                /\ splice l (indexOf l x) 1 = l1 ++ l2.
Proof.
  intros Hin. destruct (indexOf_first l x Hin) as (l1 & l2 & -> & Hl1 & Hi).
  exists l1, l2. by rewrite Hi, splice_one_at.
Qed.

Lemma attached_well_formed s this component rt rc :
  well_formed s ->
  s !! this = Some rt -> s !! component = Some rc -> _parent rc = None ->
  well_formed (attached this component rt s).
Proof.
  intros (Hc & Hp & Hd) Ht Hcomp Hnone.
  assert (component ∉ _children rt) as Hfree.
  { intros Hin. pose proof (children_sound_lookup _ _ _ _ Hc Ht Hin) as E.
    rewrite Hcomp in E. simpl in E. congruence. }
  assert (forall c q, _parent <$> s !! c = Some (Some q) ->
            _parent <$> attached this component rt s !! c = Some (Some q))
    as Hkept.
  { intros c q Hq. rewrite attached_parent_other; [done |].
    intros ->. rewrite Hcomp in Hq. simpl in Hq. congruence. }
  split; [| split].
  - apply children_sound_intro. intros h r' c Hh Hin.
    rewrite (attached_lookup _ _ _ _ _ Ht) in Hh.
    destruct (s !! h) as [r|] eqn:Hsh; simplify_eq/=.
    case_decide as Eh.
    + subst h. simplify_eq. apply elem_of_app in Hin as [Hin | Hin].
      * apply Hkept. by apply (children_sound_lookup _ _ _ _ Hc Ht).
      * apply list_elem_of_singleton in Hin as ->.
        destruct (attached_parent s this component rt rc Ht Hcomp)
          as (rc' & -> & Hpc). simpl. by rewrite Hpc.
    + apply Hkept. by apply (children_sound_lookup _ _ _ _ Hc Hsh).
  - intros h r' p Hh Hpar.
    rewrite (attached_lookup _ _ _ _ _ Ht) in Hh.
    destruct (s !! h) as [r|] eqn:Hsh; simplify_eq/=.
    case_decide as Eh.
    + simplify_eq.
      destruct (attached_children s p component rt Ht) as (rt' & Ht' & Hch).
      exists rt'. split; [done |]. rewrite Hch.
      apply elem_of_app. right. apply list_elem_of_here.
    + destruct (Hp _ _ _ Hsh Hpar) as (rp & Hrp & Hin).
      rewrite (attached_lookup _ _ _ _ _ Ht), Hrp. simpl.
      eexists. split; [done |]. simpl. case_decide; [| done].
      simplify_eq. apply elem_of_app. by left.
  - intros h r' Hh.
    rewrite (attached_lookup _ _ _ _ _ Ht) in Hh.
    destruct (s !! h) as [r|] eqn:Hsh; simplify_eq/=.
    case_decide; [| by apply (Hd h)].
    simplify_eq. apply NoDup_app. split; [by apply (Hd this) |].
    split; [| apply NoDup_singleton].
    intros x Hx Hx'. apply list_elem_of_singleton in Hx'. by subst.
Qed.

Lemma detached_well_formed s this component rt rc :
  well_formed s ->
  s !! this = Some rt -> s !! component = Some rc -> _parent rc = Some this ->
  well_formed (detached this component rt s).
Proof.
  intros (Hc & Hp & Hd) Ht Hcomp Hpar.
  destruct (Hp _ _ _ Hcomp Hpar) as (rt0 & Ht0 & Hlisted).
  assert (rt0 = rt) as -> by congruence. clear Ht0.
  destruct (splice_indexOf_first _ _ Hlisted) as (l1 & l2 & Hl & Hl1 & Hsplice).
  pose proof (Hd _ _ Ht) as Hnd. rewrite Hl in Hnd.
  apply NoDup_app in Hnd as (Hnd1 & Hdisj & Hnd2).
  apply NoDup_cons in Hnd2 as [Hl2 Hnd2].
  assert (forall c q, c <> component -> _parent <$> s !! c = Some (Some q) ->
            _parent <$> detached this component rt s !! c = Some (Some q))
    as Hkept.
  { intros c q Hne Hq. rewrite (detached_lookup _ _ _ _ _ Ht).
    destruct (s !! c) as [r|]; simplify_eq/=.
    rewrite decide_False by done. by rewrite Hq. }
  split; [| split].
  - apply children_sound_intro. intros h r' c Hh Hin.
    rewrite (detached_lookup _ _ _ _ _ Ht) in Hh.
    destruct (s !! h) as [r|] eqn:Hsh; simplify_eq/=.
    case_decide as Eh.
    + simplify_eq. rewrite Hsplice in Hin.
      assert (c ∈ _children rt) as Hin'.
      { rewrite Hl. apply elem_of_app in Hin as [? | ?];
          apply elem_of_app; [by left | right; by apply list_elem_of_further]. }
      apply Hkept; [| by apply (children_sound_lookup _ _ _ _ Hc Ht)].
      intros ->. apply elem_of_app in Hin as [? | ?]; done.
    + apply Hkept; [| by apply (children_sound_lookup _ _ _ _ Hc Hsh)].
      intros ->. pose proof (children_sound_lookup _ _ _ _ Hc Hsh Hin) as E.
      rewrite Hcomp in E. simpl in E. congruence.
  - intros h r' p Hh Hpar'.
    rewrite (detached_lookup _ _ _ _ _ Ht) in Hh.
    destruct (s !! h) as [r|] eqn:Hsh; simplify_eq/=.
    case_decide as Eh; [done |].
    destruct (Hp _ _ _ Hsh Hpar') as (rp & Hrp & Hin).
    rewrite (detached_lookup _ _ _ _ _ Ht), Hrp. simpl.
    eexists. split; [done |]. simpl. case_decide; [| done].
    simplify_eq. rewrite Hsplice. rewrite Hl in Hin.
    apply elem_of_app in Hin as [? | Hin]; apply elem_of_app; [by left |].
    apply elem_of_cons in Hin as [? | ?]; [done | by right].
  - intros h r' Hh.
    rewrite (detached_lookup _ _ _ _ _ Ht) in Hh.
    destruct (s !! h) as [r|] eqn:Hsh; simplify_eq/=.
    case_decide; [| by apply (Hd h)].
    rewrite Hsplice. apply NoDup_app. split; [done |]. split; [| done].
    intros x Hx Hx'. apply (Hdisj x Hx). by apply list_elem_of_further.
Qed.

(** The well-formed heaps are closed under the calls that return. *)
Lemma addChild_well_formed fuel s this component o :
  well_formed s ->
  addChild fuel this component s = Some o -> result o = Return tt ->
  well_formed (final o).
Proof.
  intros Hwf Ho Hres.
  destruct (addChild_returned _ _ _ _ _ Ho Hres) as (rt & rc & ? & ? & ? & ->).
  by apply (attached_well_formed s this component rt rc).
Qed.

Lemma removeChild_well_formed fuel s this component o :
  well_formed s ->
  removeChild fuel this component s = Some o -> result o = Return tt ->
  well_formed (final o).
Proof.
  intros Hwf Ho Hres.
  destruct (removeChild_returned _ _ _ _ _ Ho Hres) as (rt & rc & ? & ? & ? & ->).
  by apply (detached_well_formed s this component rt rc).
Qed.

(** The chain root -> mid -> leaf is what [root.addChild(mid)] and
    [mid.addChild(leaf)] build from three new hierarchies. *)
Lemma root_mid_leaf_built :
  exists o1 o2,
    addChild 3 1 2 three_new = Some o1 /\ result o1 = Return tt
    /\ addChild 3 2 3 (final o1) = Some o2 /\ result o2 = Return tt
    /\ final o2 = root_mid_leaf.
Proof.
  exists (mkOutcome (attached 1 2 (new_Hierarchy 11) three_new)
            (flat_map (emissions_at (attached 1 2 (new_Hierarchy 11) three_new)
                         (added 1 2)) [2; 1])
            (Return tt)).
  exists (mkOutcome root_mid_leaf
            (flat_map (emissions_at root_mid_leaf (added 2 3)) [3; 2; 1])
            (Return tt)).
  split; [reflexivity |]. split; [reflexivity |].
  split; [reflexivity |]. split; reflexivity.
Qed.

Lemma root_mid_leaf_well_formed : well_formed root_mid_leaf.
Proof.
  destruct root_mid_leaf_built as (o1 & o2 & H1 & R1 & H2 & R2 & <-).
  assert (well_formed three_new) as Hnew.
  { unfold three_new. apply well_formed_new; [| reflexivity].
    apply well_formed_new; [| reflexivity].
    apply well_formed_new; [| reflexivity]. apply well_formed_empty. }
  pose proof (addChild_well_formed _ _ _ _ _ Hnew H1 R1) as Hmid.
  exact (addChild_well_formed _ _ _ _ _ Hmid H2 R2).
Qed.

(** C8: a call of [addChild] whose argument already has a parent, and a
    call of [removeChild] whose argument's parent is not the receiver, end
    in the thrown error with the heap exactly as it was and nothing emitted. *)
Theorem refused_calls_change_nothing
    (fuel : nat) (s : gmap nat Hierarchy) (this component : nat) (rc : Hierarchy) :
  s !! component = Some rc ->
  (_parent rc <> None ->
     addChild fuel this component s
     = Some {| final := s; emitted := [];
               result := Throw "component should not have a parent" |})
  /\ (_parent rc <> Some this ->
        removeChild fuel this component s
        = Some {| final := s; emitted := [];
                  result := Throw "component not a child of this" |}).
Proof.
  intros Hc. split; intros Hp.
  - unfold addChild. rewrite Hc. by destruct (_parent rc).
  - unfold removeChild. rewrite Hc. by rewrite decide_False.
Qed.

(** In root -> mid -> leaf: [root.addChild(leaf)] and [root.removeChild(leaf)]. *)
Lemma refused_calls_change_nothing_witness :
  addChild 0 1 3 root_mid_leaf
  = Some {| final := root_mid_leaf; emitted := [];
            result := Throw "component should not have a parent" |}
  /\ removeChild 0 1 3 root_mid_leaf
     = Some {| final := root_mid_leaf; emitted := [];
               result := Throw "component not a child of this" |}.
Proof.
  destruct (refused_calls_change_nothing 0 root_mid_leaf 1 3
              (mkHierarchy 13 (Some 2) [])) as [Hadd Hremove].
  - reflexivity.
  - split; [apply Hadd | apply Hremove]; simpl; congruence.
Defined.

(** C1: in the chain root -> mid -> leaf, [mid.removeChild(leaf)] emits the
    event at leaf and at leaf's node and nowhere else: mid, root and their
    nodes receive nothing, whereas [mid.addChild(leaf)] on the same three
    hierarchies reaches all of them. *)
Theorem removeChild_leaf_reaches_no_ancestor (fuel : nat) :
  emitted <$> removeChild (S fuel) 2 3 root_mid_leaf
  = Some [(AtComponent 3, removed 2 3); (AtNode 13, removed 2 3)]
  /\ emitted <$> addChild (3 + fuel) 2 3 root_mid_and_leaf
     = Some [(AtComponent 3, added 2 3); (AtNode 13, added 2 3);
             (AtComponent 2, added 2 3); (AtNode 12, added 2 3);
             (AtComponent 1, added 2 3); (AtNode 11, added 2 3)].
Proof.
  split.
  - by rewrite (removeChild_emits_at_child_only fuel root_mid_leaf 2 3
                  (mkHierarchy 12 (Some 1) [3]) (mkHierarchy 13 (Some 2) [])).
  - rewrite (addChild_guard_passed _ root_mid_and_leaf 2 3
               (mkHierarchy 12 (Some 1) []) (mkHierarchy 13 None []))
      by reflexivity.
    assert (chain (attached 2 3 (mkHierarchy 12 (Some 1) []) root_mid_and_leaf)
              3 [3; 2; 1]) as Hchain by repeat econstructor.
    rewrite (multicast_chain _ _ _ _ Hchain) by (simpl; lia).
    reflexivity.
Qed.

(** *** What addChild and removeChild do to the heap *)

Lemma indexOf_app_absent l x :
  x ∉ l -> indexOf (l ++ [x]) x = Z.of_nat (length l).
Proof.
  induction l as [|y l IH]; intros Hnot; simpl.
  - by rewrite decide_True.
  - apply not_elem_of_cons in Hnot as [Hne Hnot].
    rewrite decide_False by congruence. rewrite (IH Hnot).
    destruct (Z.ltb_spec (Z.of_nat (length l)) 0); lia.
Qed.

Lemma detached_attached s this component rt rc rt' :
  s !! this = Some rt -> s !! component = Some rc -> _parent rc = None ->
  component ∉ _children rt ->
  attached this component rt s !! this = Some rt' ->
  detached this component rt' (attached this component rt s) = s.
Proof.
  intros Ht Hc Hnone Hfree Ht'. apply map_eq. intros h.
  rewrite (detached_lookup _ _ _ _ _ Ht').
  rewrite (attached_lookup _ _ _ _ h Ht).
  destruct (attached_children s this component rt Ht) as (rt'' & Ht'' & Hch).
  assert (rt'' = rt') as -> by congruence. rewrite Hch.
  rewrite indexOf_app_absent by done.
  replace (_children rt ++ [component]) with (_children rt ++ component :: [])
    by done.
  rewrite splice_one_at, app_nil_r.
  destruct (s !! h) as [r|] eqn:Hh; simpl; [| done]. f_equal.
  destruct r as [n p c]. simpl. f_equal.
  - case_decide; [| done]. subst h. rewrite Hc in Hh. by simplify_eq/=.
  - case_decide; [| done]. subst h. rewrite Ht in Hh. by simplify_eq/=.
Qed.

(** X1.  In a heap whose children lists are sound, [A.addChild(B)] followed
    by [A.removeChild(B)] gives back the heap as it was; the second call
    returns, having emitted its event at B and at B's node. *)
Theorem addChild_then_removeChild_restores
    (s : gmap nat Hierarchy) (A B : nat) (rA rB : Hierarchy) (fuel : nat)
    (o1 : outcome) :
  s !! A = Some rA -> s !! B = Some rB -> _parent rB = None ->
  children_sound s ->
  addChild fuel A B s = Some o1 ->
  forall fuel',
    removeChild (S fuel') A B (final o1)
    = Some {| final := s;
              emitted := [(AtComponent B, removed A B);
                          (AtNode (node rB), removed A B)];
              result := Return tt |}.
Proof.
  intros HA HB Hnone Hs Ho1 fuel'.
  rewrite (addChild_guard_passed _ _ _ _ _ _ HA HB Hnone) in Ho1.
  apply multicast_final in Ho1. rewrite Ho1.
  assert (B ∉ _children rA) as Hfree.
  { intros Hin. pose proof (children_sound_lookup _ _ _ _ Hs HA Hin) as E.
    rewrite HB in E. simpl in E. congruence. }
  destruct (attached_children s A B rA HA) as (rA' & HA' & _).
  destruct (attached_parent s A B rA rB HA HB) as (rB' & HB' & Hp').
  rewrite (removeChild_emits_at_child_only fuel' _ A B rA' rB' HA' HB' Hp').
  rewrite (detached_attached s A B rA rB rA' HA HB Hnone Hfree HA').
  assert (node rB' = node rB) as ->; [| done].
  rewrite (attached_lookup _ _ _ _ _ HA), HB in HB'. by simplify_eq/=.
Qed.

Lemma addChild_then_removeChild_restores_witness :
  removeChild 1 2 3 root_mid_leaf
  = Some {| final := root_mid_and_leaf;
            emitted := [(AtComponent 3, removed 2 3); (AtNode 13, removed 2 3)];
            result := Return tt |}.
Proof.
  refine (addChild_then_removeChild_restores root_mid_and_leaf 2 3
            (mkHierarchy 12 (Some 1) []) (mkHierarchy 13 None []) 3
            (mkOutcome root_mid_leaf
               (flat_map (emissions_at root_mid_leaf (added 2 3)) [3; 2; 1])
               (Return tt)) _ _ _ _ _ 0).
  - reflexivity.
  - reflexivity.
  - reflexivity.
  - apply (bool_decide_unpack _). vm_compute. exact I.
  - reflexivity.
Defined.

(** X2.  [addChild] keeps a heap well formed: when the call returns, every
    children list still points back to its owner, every hierarchy is still
    listed by its parent, and no list holds a hierarchy twice. *)
Theorem addChild_keeps_well_formed
    (fuel : nat) (s : gmap nat Hierarchy) (this component : nat) (o : outcome) :
  well_formed s ->
  addChild fuel this component s = Some o -> result o = Return tt ->
  well_formed (final o).
Proof.
  intros Hwf Ho Hres.
  destruct (addChild_returned _ _ _ _ _ Ho Hres) as (rt & rc & ? & ? & ? & ->).
  by apply (attached_well_formed s this component rt rc).
Qed.

Lemma three_new_well_formed : well_formed three_new.
Proof.
  unfold three_new. apply well_formed_new; [| reflexivity].
  apply well_formed_new; [| reflexivity].
  apply well_formed_new; [| reflexivity]. apply well_formed_empty.
Qed.

Lemma addChild_keeps_well_formed_witness :
  well_formed (attached 1 2 (new_Hierarchy 11) three_new).
Proof.
  apply (addChild_keeps_well_formed 3 three_new 1 2
           (mkOutcome (attached 1 2 (new_Hierarchy 11) three_new)
              (flat_map (emissions_at (attached 1 2 (new_Hierarchy 11) three_new)
                           (added 1 2)) [2; 1])
              (Return tt))).
  - apply three_new_well_formed.
  - reflexivity.
  - reflexivity.
Defined.

(** X3.  [removeChild] keeps a heap well formed, and when it returns the
    child has no parent and is no longer among the receiver's children. *)
Theorem removeChild_keeps_well_formed
    (fuel : nat) (s : gmap nat Hierarchy) (this component : nat) (o : outcome) :
  well_formed s ->
  removeChild fuel this component s = Some o -> result o = Return tt ->
  well_formed (final o)
  /\ (exists rc, final o !! component = Some rc /\ _parent rc = None)
  /\ (exists rt, final o !! this = Some rt /\ component ∉ _children rt).
Proof.
  intros Hwf Ho Hres.
  destruct (removeChild_returned _ _ _ _ _ Ho Hres)
    as (rt & rc & Ht & Hc & Hp & Hfinal).
  split.
  - rewrite Hfinal. by apply (detached_well_formed s this component rt rc).
  - destruct Hwf as (_ & Hps & Hd).
    destruct (Hps _ _ _ Hc Hp) as (rt0 & Ht0 & Hlisted).
    assert (rt0 = rt) as -> by congruence.
    apply (removeChild_detaches fuel s this component rt rc o); try done.
    by apply (Hd this).
Qed.

Lemma removeChild_keeps_well_formed_witness :
  well_formed root_mid_and_leaf
  /\ (exists rc, root_mid_and_leaf !! 3 = Some rc /\ _parent rc = None)
  /\ (exists rt, root_mid_and_leaf !! 2 = Some rt /\ 3 ∉ _children rt).
Proof.
  apply (removeChild_keeps_well_formed 1 root_mid_leaf 2 3
           (mkOutcome root_mid_and_leaf
              [(AtComponent 3, removed 2 3); (AtNode 13, removed 2 3)]
              (Return tt))).
  - apply root_mid_leaf_well_formed.
  - reflexivity.
  - reflexivity.
Defined.

(** Two updates, one that keeps parents and one that keeps children lists,
    applied in either order. *)
Lemma alter_children_parent_frame
    (f g : Hierarchy -> Hierarchy) (m : gmap nat Hierarchy) (a b h : nat) :
  (forall r, node (f r) = node r) -> (forall r, _parent (f r) = _parent r) ->
  (forall r, node (g r) = node r) -> (forall r, _children (g r) = _children r) ->
  forall m', m' = alter f a (alter g b m) \/ m' = alter g b (alter f a m) ->
  node <$> m' !! h = node <$> m !! h
  /\ (h <> b -> _parent <$> m' !! h = _parent <$> m !! h)
  /\ (h <> a -> _children <$> m' !! h = _children <$> m !! h).
Proof.
  intros Hf Hfp Hg Hgc m' [-> | ->]; rewrite !lookup_alter;
    repeat split; intros; repeat case_decide; simplify_eq;
    destruct (m !! _) as [r|]; simpl;
    rewrite ?Hf, ?Hg, ?Hgc, ?Hfp, ?Hf, ?Hg, ?Hgc, ?Hfp; done.
Qed.

Lemma alter_parent_frame
    (g : Hierarchy -> Hierarchy) (m : gmap nat Hierarchy) (a b h : nat) :
  (forall r, node (g r) = node r) -> (forall r, _children (g r) = _children r) ->
  node <$> alter g b m !! h = node <$> m !! h
  /\ (h <> b -> _parent <$> alter g b m !! h = _parent <$> m !! h)
  /\ (h <> a -> _children <$> alter g b m !! h = _children <$> m !! h).
Proof.
  intros Hg Hgc. rewrite !lookup_alter.
  repeat split; intros; repeat case_decide; simplify_eq;
    destruct (m !! _) as [r|]; simpl; rewrite ?Hg, ?Hgc; done.
Qed.

(** X4.  Whatever way [addChild] or [removeChild] ends, it changes nothing
    but the parent of its argument and the children list of its receiver:
    every other hierarchy is as before, no hierarchy appears or
    disappears, and no hierarchy changes node. *)
Theorem addChild_removeChild_frame
    (fuel : nat) (s : gmap nat Hierarchy) (this component : nat) (o : outcome)
    (h : nat) :
  addChild fuel this component s = Some o
  \/ removeChild fuel this component s = Some o ->
  node <$> final o !! h = node <$> s !! h
  /\ (h <> component -> _parent <$> final o !! h = _parent <$> s !! h)
  /\ (h <> this -> _children <$> final o !! h = _children <$> s !! h).
Proof.
  intros [Ho | Ho].
  - unfold addChild in Ho.
    destruct (s !! component) as [rc|]; [| by simplify_eq].
    destruct (_parent rc); [by simplify_eq |]. cbn zeta in Ho.
    destruct (alter _ component s !! this) as [rt|].
    + apply multicast_final in Ho.
      apply (alter_children_parent_frame
               (set_children (push component (_children rt)))
               (set_parent (Some this)) s this component h); try done.
      by left.
    + simplify_eq/=. by apply alter_parent_frame.
  - unfold removeChild in Ho.
    destruct (s !! component) as [rc|]; [| by simplify_eq].
    case_decide; [| by simplify_eq].
    destruct (s !! this) as [rt|]; [| by simplify_eq].
    apply multicast_final in Ho.
    apply (alter_children_parent_frame
             (set_children
                (splice (_children rt) (indexOf (_children rt) component) 1))
             (set_parent None) s this component h); try done.
    by right.
Qed.

Lemma addChild_removeChild_frame_witness :
  node <$> root_mid_leaf !! 1 = node <$> root_mid_and_leaf !! 1
  /\ (1 <> 3 -> _parent <$> root_mid_leaf !! 1 = _parent <$> root_mid_and_leaf !! 1)
  /\ (1 <> 2 ->
      _children <$> root_mid_leaf !! 1 = _children <$> root_mid_and_leaf !! 1).
Proof.
  apply (addChild_removeChild_frame 3 root_mid_and_leaf 2 3
           (mkOutcome root_mid_leaf
              (flat_map (emissions_at root_mid_leaf (added 2 3)) [3; 2; 1])
              (Return tt)) 1).
  left. reflexivity.
Defined.

(** *** getRoot, getChild, getChildren, hasChildren *)

Lemma chain_member s h l x :
  chain s h l -> x ∈ l ->
  exists l', chain s x l' /\ last l' = last l /\ length l' <= length l.
Proof.
  induction 1 as [h r Hh Hp | h r p l Hh Hp Hl IH]; intros Hx.
  - apply list_elem_of_singleton in Hx as ->. exists [h].
    split; [by apply (chain_root s h r) | done].
  - apply elem_of_cons in Hx as [-> | Hx].
    + exists (h :: l). split; [by apply (chain_step s h r p) | done].
    + destruct (IH Hx) as (l' & Hl' & Hlast & Hlen). exists l'.
      split; [done |]. split; [| simpl; lia].
      rewrite Hlast. destruct Hl; done.
Qed.

Section SearchFacts.

Context {T C : Type}.
Variable components_getArray : nat -> T -> list C.

Lemma getRoot_loop_chain s h l :
  chain s h l -> forall fuel, length l <= fuel ->
  exists root r, last l = Some root /\ s !! root = Some r /\ _parent r = None
                 /\ getRoot_loop fuel s h = Some (Return root).
Proof.
  induction 1 as [h r Hh Hp | h r p l Hh Hp Hl IH]; intros [|fuel] Hlen;
    simpl in Hlen; try lia.
  - exists h, r. simpl. by rewrite Hh, Hp.
  - destruct (IH fuel ltac:(lia)) as (root & rr & Hlast & Hroot & Hnone & Hloop).
    exists root, rr. simpl. rewrite Hh, Hp. repeat split; try done.
    rewrite <- Hlast. destruct Hl; done.
Qed.

(** X5.  In a tree, [getRoot] called on any hierarchy of the path from
    [this] to the root terminates and ends as [get] on the node of the root
    ends: it returns the first component of the type there, or throws
    NotFound when there is none; the answer is the same for all of them. *)
Theorem getRoot_looks_up_the_root
    (s : gmap nat Hierarchy) (this x : nat) (l : list nat) (ty : T) :
  chain s this l -> x ∈ l ->
  exists root r,
    last l = Some root /\ s !! root = Some r /\ _parent r = None
    /\ getRoot components_getArray (length l) s this ty
       = Some (ObjectRegistry_get (components_getArray (node r) ty) false)
    /\ getRoot components_getArray (length l) s x ty
       = Some (ObjectRegistry_get (components_getArray (node r) ty) false).
Proof.
  intros Hl Hx.
  destruct (getRoot_loop_chain s this l Hl (length l) ltac:(lia))
    as (root & r & Hlast & Hroot & Hnone & Hloop).
  exists root, r. repeat split; try done.
  - unfold getRoot. by rewrite Hloop, Hroot.
  - destruct (chain_member s this l x Hl Hx) as (l' & Hl' & Hlast' & Hlen).
    destruct (getRoot_loop_chain s x l' Hl' (length l) Hlen)
      as (root' & r' & Hlast'' & Hroot' & _ & Hloop').
    assert (root' = root) as -> by congruence.
    unfold getRoot. by rewrite Hloop', Hroot.
Qed.

(** **** The two loops over the children *)

Lemma tree_allocated s d h : tree s d h -> is_Some (s !! h).
Proof. destruct d; simpl; [done |]. by destruct (s !! h). Qed.

Lemma tree_children s d h r :
  tree s (S d) h -> s !! h = Some r ->
  Forall (tree s d) (_children r)
  /\ Forall (fun c => is_Some (s !! c)) (_children r).
Proof.
  simpl. intros Ht Hh. rewrite Hh in Ht. split; [done |].
  eapply Forall_impl; [exact Ht |]. intros c. apply tree_allocated.
Qed.

(** The components on the nodes of the given hierarchies, in order. *)
Lemma direct_components_allocated s children ty :
  Forall (fun c => is_Some (s !! c)) children ->
  exists found,
    direct_components components_getArray s children ty = Return found
    /\ forall x, x ∈ found <->
         exists c r, c ∈ children /\ s !! c = Some r
                     /\ x ∈ components_getArray (node r) ty.
Proof.
  induction 1 as [|c children [r Hc] _ (found & Hfound & Hmem)]; simpl.
  - exists []. split; [done |]. intros x. split.
    + intros Hx. by apply elem_of_nil in Hx.
    + intros (c & r & Hc & _). by apply elem_of_nil in Hc.
  - rewrite Hc, Hfound. eexists. split; [done |]. intros x.
    rewrite elem_of_app, Hmem. split.
    + intros [Hx | (c' & r' & Hc' & Hr' & Hx)].
      * exists c, r. split; [apply list_elem_of_here | done].
      * exists c', r'. split; [by apply list_elem_of_further | done].
    + intros (c' & r' & Hc' & Hr' & Hx).
      apply elem_of_cons in Hc' as [-> | Hc'].
      * left. by simplify_eq.
      * right. by exists c', r'.
Qed.

Lemma all_found_returns (search : nat -> option (completion (list C)))
    (P : nat -> list C -> Prop) children :
  Forall (fun c => exists found, search c = Some (Return found) /\ P c found)
    children ->
  exists deeper,
    all_found search children = Some (Return deeper)
    /\ forall x, x ∈ deeper <->
         exists c found, c ∈ children /\ search c = Some (Return found)
                         /\ x ∈ found.
Proof.
  induction 1 as [|c children (found & Hc & _) _ (deeper & Hd & Hmem)]; simpl.
  - exists []. split; [done |]. intros x. split.
    + intros Hx. by apply elem_of_nil in Hx.
    + intros (c & f & Hc & _). by apply elem_of_nil in Hc.
  - rewrite Hc, Hd. eexists. split; [done |]. intros x.
    rewrite elem_of_app, Hmem. split.
    + intros [Hx | (c' & f' & Hc' & Hs' & Hx)].
      * exists c, found. split; [apply list_elem_of_here | done].
      * exists c', f'. split; [by apply list_elem_of_further | done].
    + intros (c' & f' & Hc' & Hs' & Hx).
      apply elem_of_cons in Hc' as [-> | Hc'].
      * left. by simplify_eq.
      * right. by exists c', f'.
Qed.

Lemma descendant_of_child s h r c x :
  s !! h = Some r -> c ∈ _children r ->
  x = c \/ descendant s c x -> descendant s h x.
Proof.
  intros Hh Hc [-> | Hx].
  - by apply (descendant_child s h r).
  - by apply (descendant_deeper s h r c).
Qed.

(** The recursive search of a tree: it returns, and what it returns are
    the components on the nodes of the descendants. *)
Lemma search_tree s ty d : forall h,
  tree s d h ->
  exists found,
    _getChildComponents components_getArray d s h ty true = Some (Return found)
    /\ forall x, x ∈ found <->
         exists desc r, descendant s h desc /\ s !! desc = Some r
                        /\ x ∈ components_getArray (node r) ty.
Proof.
  induction d as [|d IH]; intros h Ht; [done |].
  destruct (tree_allocated _ _ _ Ht) as [r Hh].
  destruct (tree_children _ _ _ _ Ht Hh) as [Hsub Halloc].
  destruct (direct_components_allocated s (_children r) ty Halloc)
    as (direct & Hdirect & Hmem_direct).
  assert (Forall (fun c =>
            exists found,
              _getChildComponents components_getArray d s c ty true
              = Some (Return found)
              /\ forall x, x ∈ found <->
                      exists desc r, descendant s c desc /\ s !! desc = Some r
                                     /\ x ∈ components_getArray (node r) ty)
            (_children r)) as Hrec.
  { eapply Forall_impl; [exact Hsub |]. intros c Hc. by apply IH. }
  destruct (all_found_returns _ _ _ Hrec) as (deeper & Hdeeper & Hmem_deeper).
  exists (direct ++ deeper). split.
  - simpl. by rewrite Hh, Hdirect, Hdeeper.
  - intros x. rewrite elem_of_app, Hmem_direct, Hmem_deeper. split.
    + intros [(c & rc & Hc & Hrc & Hx) | (c & found & Hc & Hfound & Hx)].
      * exists c, rc. split; [by apply (descendant_child s h r) | done].
      * rewrite Forall_forall in Hrec.
        destruct (Hrec c Hc) as (found' & Hfound' & Hmem).
        assert (found' = found) as -> by congruence.
        apply Hmem in Hx as (desc & rd & Hdesc & Hrd & Hx).
        exists desc, rd. split; [| done].
        by apply (descendant_deeper s h r c).
    + intros (desc & rd & Hdesc & Hrd & Hx).
      destruct Hdesc as [h r' c Hh' Hc | h r' c desc Hh' Hc Hdesc];
        assert (r' = r) as -> by congruence.
      * left. by exists c, rd.
      * right. rewrite Forall_forall in Hrec.
        destruct (Hrec c Hc) as (found & Hfound & Hmem).
        exists c, found. split; [done |]. split; [done |].
        apply Hmem. by exists desc, rd.
Qed.





(** X7.  In a tree, [getChildren(type, true)] returns exactly the
    components of the type on the nodes of the descendants of [this]:
    children, their children and so on, [this] itself excluded unless it is
    its own descendant. *)
Theorem getChildren_recursive_covers_descendants
    (s : gmap nat Hierarchy) (d : nat) (this : nat) (ty : T) :
  tree s d this ->
  exists found,
    getChildren components_getArray d s this ty true = Some (Return found)
    /\ forall x, x ∈ found <->
         exists desc r, descendant s this desc /\ s !! desc = Some r
                        /\ x ∈ components_getArray (node r) ty.
Proof.
  intros Ht. destruct (search_tree s ty d this Ht) as (found & Hall & Hmem).
  by exists found.
Qed.


End SearchFacts.

Lemma root_mid_leaf_tree : tree root_mid_leaf 3 1.
Proof. cbn. repeat (constructor; cbn). Qed.

Lemma getRoot_looks_up_the_root_witness :
  exists root r,
    last [3; 2; 1; 0] = Some root /\ top_root_mid_leaf !! root = Some r
    /\ _parent r = None
    /\ getRoot top_has_component 4 top_root_mid_leaf 3 "Camera"
       = Some (ObjectRegistry_get (top_has_component (node r) "Camera") false)
    /\ getRoot top_has_component 4 top_root_mid_leaf 2 "Camera"
       = Some (ObjectRegistry_get (top_has_component (node r) "Camera") false).
Proof.
  apply (getRoot_looks_up_the_root top_has_component top_root_mid_leaf 3 2
           [3; 2; 1; 0] "Camera").
  - repeat econstructor.
  - apply (bool_decide_unpack _). vm_compute. exact I.
Defined.

(** The component of the top is found from the leaf; on root -> mid -> leaf,
    whose root has no component of the type, the lookup throws. *)
Example getRoot_found_and_not_found :
  getRoot top_has_component 4 top_root_mid_leaf 3 "Camera"
  = Some (Return (Some 7))
  /\ getRoot leaf_components 3 root_mid_leaf 3 "Camera" = Some (Throw NotFound).
Proof. split; reflexivity. Qed.


Lemma getChildren_recursive_covers_descendants_witness :
  exists found,
    getChildren leaf_components 3 root_mid_leaf 1 "Camera" true
    = Some (Return found)
    /\ forall x, x ∈ found <->
         exists desc r, descendant root_mid_leaf 1 desc
                        /\ root_mid_leaf !! desc = Some r
                        /\ x ∈ leaf_components (node r) "Camera".
Proof.
  apply (getChildren_recursive_covers_descendants leaf_components
           root_mid_leaf 3 1 "Camera").
  apply root_mid_leaf_tree.
Defined.


(** The search on root -> mid -> leaf: mid's component, then the leaf's. *)
Example getChildren_root_mid_leaf :
  getChildren leaf_components 3 root_mid_leaf 1 "Camera" true
  = Some (Return [21; 31; 32])
  /\ getChild leaf_components 3 root_mid_leaf 1 "Camera" true
     = Some (Return (Some 21))
  /\ getChild leaf_components 3 root_mid_leaf 2 "Camera" false
     = Some (Return (Some 31))
  /\ hasChildren leaf_components 3 root_mid_leaf 3 "Camera" true
     = Some (Return false).
Proof. repeat split; reflexivity. Qed.

(** Under top -> root -> mid -> leaf the search from the top throws at the
    root's node, which has no component, though deeper nodes have some. *)
Example getChild_throws_at_first_child :
  getChild leaf_components 4 top_root_mid_leaf 0 "Camera" true
  = Some (Throw NotFound)
  /\ getChildren leaf_components 4 top_root_mid_leaf 0 "Camera" true
     = Some (Return [21; 31; 32])
  /\ hasChildren leaf_components 4 top_root_mid_leaf 0 "Camera" true
     = Some (Throw NotFound).
Proof. repeat split; reflexivity. Qed.

(** *** getParent *)

Section LookupFacts.

Context {T C : Type}.
Variable components_getArray : nat -> T -> list C.

(** Whatever [recursive] is, a call on a hierarchy that has a parent ends
    as the lookup on the parent's node ends: that lookup returns a
    component or throws, and in neither case is an ancestor looked at. *)
Lemma getParent_ends_at_parent fuel s this h p ph ty recursive :
  s !! this = Some h -> _parent h = Some p -> s !! p = Some ph ->
  getParent components_getArray fuel s this ty recursive
  = Some (ObjectRegistry_get (components_getArray (node ph) ty) false).
Proof.
  intros Hthis Hpar Hp. unfold getParent. rewrite Hthis, Hpar, Hp.
  by destruct (components_getArray (node ph) ty).
Qed.

(** The loop itself, were it entered: it looks at the hierarchy it is given
    and at no other. *)
Lemma getParent_loop_first fuel s p ph ty :
  s !! p = Some ph ->
  getParent_loop components_getArray (S fuel) s (Some p) ty
  = Some (ObjectRegistry_get (components_getArray (node ph) ty) false).
Proof.
  intros Hp. simpl. rewrite Hp. by destruct (components_getArray (node ph) ty).
Qed.

(** X9.  [getParent] on a hierarchy without parent returns null; when the
    node of the direct parent has components of the type it returns the
    first of them, and when it has none it throws NotFound; each of these
    for either value of [recursive] and without a step of the loop. *)
Theorem getParent_direct_parent
    (fuel : nat) (s : gmap nat Hierarchy) (this : nat) (h : Hierarchy) (ty : T) :
  s !! this = Some h ->
  (_parent h = None ->
     forall recursive,
       getParent components_getArray fuel s this ty recursive
       = Some (Return None))
  /\ (forall p ph component others,
        _parent h = Some p -> s !! p = Some ph ->
        components_getArray (node ph) ty = component :: others ->
        forall recursive,
          getParent components_getArray fuel s this ty recursive
          = Some (Return (Some component)))
  /\ (forall p ph,
        _parent h = Some p -> s !! p = Some ph ->
        components_getArray (node ph) ty = [] ->
        forall recursive,
          getParent components_getArray fuel s this ty recursive
          = Some (Throw NotFound)).
Proof.
  intros Hthis. split; [| split].
  - intros Hnone recursive. unfold getParent. by rewrite Hthis, Hnone.
  - intros p ph component others Hp Hph Hfound recursive.
    rewrite (getParent_ends_at_parent fuel s this h p ph ty recursive Hthis Hp Hph).
    by rewrite Hfound.
  - intros p ph Hp Hph Hnone recursive.
    rewrite (getParent_ends_at_parent fuel s this h p ph ty recursive Hthis Hp Hph).
    by rewrite Hnone.
Qed.

End LookupFacts.

Lemma getParent_direct_parent_witness :
  (_parent (mkHierarchy 13 (Some 2) []) = None ->
     forall recursive,
       getParent leaf_components 0 root_mid_leaf 3 "Camera" recursive
       = Some (Return None))
  /\ (forall p ph component others,
        _parent (mkHierarchy 13 (Some 2) []) = Some p ->
        root_mid_leaf !! p = Some ph ->
        leaf_components (node ph) "Camera" = component :: others ->
        forall recursive,
          getParent leaf_components 0 root_mid_leaf 3 "Camera" recursive
          = Some (Return (Some component)))
  /\ (forall p ph,
        _parent (mkHierarchy 13 (Some 2) []) = Some p ->
        root_mid_leaf !! p = Some ph ->
        leaf_components (node ph) "Camera" = [] ->
        forall recursive,
          getParent leaf_components 0 root_mid_leaf 3 "Camera" recursive
          = Some (Throw NotFound)).
Proof.
  apply (getParent_direct_parent leaf_components 0 root_mid_leaf 3
           (mkHierarchy 13 (Some 2) []) "Camera").
  reflexivity.
Defined.

(** The leaf's parent, mid, is on node 12, which has component 21. *)
Example getParent_leaf_finds_mid :
  getParent leaf_components 0 root_mid_leaf 3 "Camera" true
  = Some (Return (Some 21))
  /\ getParent leaf_components 0 root_mid_leaf 1 "Camera" true
     = Some (Return None).
Proof. split; reflexivity. Qed.

(** C2: [leaf.getParent(type, true)] in the chain root -> mid -> leaf, where
    no node has a component of the type, throws NotFound at the lookup on
    the parent's node (the answer should be null); so it does in the chain
    top -> root -> mid -> leaf where top's node has such a component (the
    answer should be that component).  No ancestor beyond the parent is
    looked at. *)
Theorem getParent_recursive_throws_at_parent (fuel : nat) :
  getParent no_components fuel root_mid_leaf 3 "Camera" true
  = Some (Throw NotFound)
  /\ getParent top_has_component fuel top_root_mid_leaf 3 "Camera" true
     = Some (Throw NotFound).
Proof.
  split.
  - by rewrite (getParent_ends_at_parent no_components fuel root_mid_leaf 3
                  (mkHierarchy 13 (Some 2) []) 2 (mkHierarchy 12 (Some 1) [3])).
  - by rewrite (getParent_ends_at_parent top_has_component fuel top_root_mid_leaf
                  3 (mkHierarchy 13 (Some 2) []) 2 (mkHierarchy 12 (Some 1) [3])).
Qed.

(** The answers the ancestor search should give on these two chains. *)
Example getParent_expected_answers :
  chain root_mid_leaf 3 [3; 2; 1]
  /\ nearest_component no_components root_mid_leaf [2; 1] "Camera" = None
  /\ chain top_root_mid_leaf 3 [3; 2; 1; 0]
  /\ nearest_component top_has_component top_root_mid_leaf [2; 1; 0] "Camera"
     = Some 7.
Proof.
  split; [repeat econstructor |]. split; [reflexivity |].
  split; [repeat econstructor | reflexivity].
Qed.

End HierarchyFacts.

(* ====================================================================== *)
(** ** Properties of System.ts *)

Module SystemFacts.

Import System.

Lemma file_under_other obj registry scope scope' :
  scope <> scope' ->
  getArray (file_under obj registry scope) scope' = getArray registry scope'.
Proof.
  intros Hne. unfold file_under. case_decide; [done |].
  unfold getArray at 1 3. by rewrite lookup_insert_ne.
Qed.

Lemma file_under_elem obj registry scope :
  obj ∈ getArray (file_under obj registry scope) scope.
Proof.
  unfold file_under. case_decide; [done |].
  unfold getArray at 1. rewrite lookup_insert_eq. simpl.
  apply elem_of_app. right. apply list_elem_of_here.
Qed.

Lemma file_under_keeps obj registry scope scope' x :
  x ∈ getArray registry scope' ->
  x ∈ getArray (file_under obj registry scope) scope'.
Proof.
  intros Hx. destruct (decide (scope = scope')) as [<-|Hne].
  - unfold file_under. case_decide; [done |].
    unfold getArray at 1. rewrite lookup_insert_eq. simpl.
    apply elem_of_app. by left.
  - by rewrite file_under_other.
Qed.

Lemma foldl_file_under_keeps obj scopes : forall registry scope x,
  x ∈ getArray registry scope ->
  x ∈ getArray (foldl (file_under obj) registry scopes) scope.
Proof.
  induction scopes as [|sc scopes IH]; intros registry scope x Hx; [done |].
  simpl. apply IH. by apply file_under_keeps.
Qed.

(** After [add], the object is filed under each type it satisfies. *)
Lemma add_files_under obj registry scope :
  scope ∈ satisfied obj -> obj ∈ getArray (add obj registry) scope.
Proof.
  unfold add. generalize (satisfied obj). intros scopes. revert registry.
  induction scopes as [|sc scopes IH]; intros registry Hin.
  - by apply elem_of_nil in Hin.
  - simpl. apply elem_of_cons in Hin as [->|Hin].
    + apply foldl_file_under_keeps. apply file_under_elem.
    + by apply IH.
Qed.

Lemma add_keeps obj registry scope x :
  x ∈ getArray registry scope -> x ∈ getArray (add obj registry) scope.
Proof. apply foldl_file_under_keeps. Qed.

Lemma has_elem registry scope x :
  x ∈ getArray registry (typeName scope) -> has registry scope = true.
Proof.
  unfold has. destruct (getArray registry (typeName scope)); [|done].
  intros Hx. by apply elem_of_nil in Hx.
Qed.

(** C6: [_addComponent] throws the duplicate-singleton error, leaving the
    system as it was, when the component is a system singleton and the
    registry has an instance of its type; in every other case it returns
    with the component registered under its type.  Two components of one
    non-singleton type are both registered; of two singletons of one type
    the second is refused. *)
Theorem addComponent_singleton_rule (this : System) (component : Component) :
  (isSystemSingleton component = true -> has (components this) component = true ->
     _addComponent component this = (this, Throw (DuplicateSingleton component)))
  /\ (isSystemSingleton component = false \/ has (components this) component = false ->
        _addComponent component this
        = ({| components := add component (components this) |}, Return tt)
        /\ component ∈ getArray (add component (components this))
                                (typeName component))
  /\ (forall second,
        isSystemSingleton component = false -> isSystemSingleton second = false ->
        typeName second = typeName component ->
        exists this1 this2,
          _addComponent component this = (this1, Return tt)
          /\ _addComponent second this1 = (this2, Return tt)
          /\ component ∈ getArray (components this2) (typeName component)
          /\ second ∈ getArray (components this2) (typeName component))
  /\ (forall second,
        isSystemSingleton component = true -> isSystemSingleton second = true ->
        typeName second = typeName component ->
        has (components this) component = false ->
        exists this1,
          _addComponent component this = (this1, Return tt)
          /\ _addComponent second this1 = (this1, Throw (DuplicateSingleton second))).
Proof.
  assert (forall c r, c ∈ getArray (add c r) (typeName c)) as Hreg.
  { intros c r. apply add_files_under. apply list_elem_of_here. }
  repeat split.
  - intros Hs Hh. unfold _addComponent. by rewrite Hs, Hh.
  - unfold _addComponent. destruct H as [-> | ->]; [done |].
    by rewrite andb_false_r.
  - apply Hreg.
  - intros second Hs1 Hs2 Hty. do 2 eexists. unfold _addComponent.
    rewrite Hs1, Hs2. simpl. repeat split.
    + rewrite <- Hty at 1. apply add_keeps. rewrite Hty. apply Hreg.
    + rewrite <- Hty. apply Hreg.
  - intros second Hs1 Hs2 Hty Hh. eexists. unfold _addComponent at 1.
    rewrite Hs1, Hh. simpl. split; [done |].
    unfold _addComponent. rewrite Hs2. simpl.
    rewrite (has_elem _ second component); [done |].
    rewrite Hty. apply Hreg.
Qed.

Lemma addComponent_singleton_rule_witness :
  (exists this1 this2,
     _addComponent camera1 empty_system = (this1, Return tt)
     /\ _addComponent camera2 this1 = (this2, Return tt)
     /\ camera1 ∈ getArray (components this2) "Camera"
     /\ camera2 ∈ getArray (components this2) "Camera")
  /\ (exists this1,
        _addComponent renderer1 empty_system = (this1, Return tt)
        /\ _addComponent renderer2 this1
           = (this1, Throw (DuplicateSingleton renderer2))).
Proof.
  split.
  - destruct (addComponent_singleton_rule empty_system camera1)
      as (_ & _ & Htwice & _).
    apply (Htwice camera2); reflexivity.
  - destruct (addComponent_singleton_rule empty_system renderer1)
      as (_ & _ & _ & Hsecond).
    apply (Hsecond renderer2); reflexivity.
Defined.

(** X10.  [findNodeByName] returns the first node of the array, in its
    order, whose name is the given one, and [undefined] exactly when no
    node of the array has that name. *)
Theorem findNodeByName_first_match
    (nodes_getArray : option string -> list Node) (wanted : string)
    (nodeOrType : option string) :
  (findNodeByName nodes_getArray wanted nodeOrType = None
   <-> Forall (fun n => name n <> wanted) (nodes_getArray nodeOrType))
  /\ (forall n,
        findNodeByName nodes_getArray wanted nodeOrType = Some n
        <-> exists before after,
              nodes_getArray nodeOrType = before ++ n :: after
              /\ name n = wanted
              /\ Forall (fun m => name m <> wanted) before).
Proof.
  unfold findNodeByName. generalize (nodes_getArray nodeOrType) as nodes.
  intros nodes. split.
  - induction nodes as [|m nodes IH]; simpl.
    + split; [by constructor | done].
    + case_decide as Hm.
      * split; [done |]. intros Hall. by apply Forall_cons in Hall as [? _].
      * rewrite IH. split; [by constructor |].
        intros Hall. by apply Forall_cons in Hall as [_ ?].
  - intros n. induction nodes as [|m nodes IH]; simpl.
    + split; [done |]. intros (before & after & Heq & _).
      by destruct before.
    + case_decide as Hm.
      * split.
        -- intros [= ->]. exists [], nodes. by repeat split.
        -- intros (before & after & Heq & Hn & Hall).
           destruct before as [|b before]; simplify_eq/=; [done |].
           by apply Forall_cons in Hall as [? _].
      * rewrite IH. split.
        -- intros (before & after & -> & Hn & Hall).
           exists (m :: before), after. repeat split; [done |].
           by constructor.
        -- intros (before & after & Heq & Hn & Hall).
           destruct before as [|b before]; simplify_eq/=; try done.
           apply Forall_cons in Hall as [_ Hall]. by exists before, after.
Qed.

(** Two nodes named "Lamp": the older one is found. *)
Example findNodeByName_two_lamps :
  findNodeByName (fun _ => [mkNode 1 "Scene"; mkNode 2 "Lamp"; mkNode 3 "Lamp"])
    "Lamp" None = Some (mkNode 2 "Lamp")
  /\ findNodeByName (fun _ => [mkNode 1 "Scene"; mkNode 2 "Lamp"]) "Camera" None
     = None.
Proof. by split. Qed.

End SystemFacts.

(* ====================================================================== *)
(** ** Properties of components/CGraph.ts *)

Module CGraphFacts.

Import CGraph.

Section HostFacts.

Variables Graph IUpdateContext : Type.
Variable Graph_tick : IUpdateContext -> CGraph Graph -> CGraph Graph * bool.
Variable Graph_deflate : Graph -> JsValue.
Variable Component_deflate : CGraph Graph -> JsValue.

Local Abbreviation tick := (tick Graph IUpdateContext Graph_tick).
Local Abbreviation deflate := (deflate Graph Graph_deflate Component_deflate).

(** C9: [tick] hands the nested graph's tick pass a host whose [changed]
    flag is true and that is otherwise the host it was called on, and
    returns what that pass returns; the flag's value before the call plays
    no part. *)
Theorem tick_marks_changed_then_delegates (context : IUpdateContext) (this : CGraph Graph) :
  (exists marked,
     changed marked = true /\ graph marked = graph this /\ _root marked = _root this
     /\ tick context this = Graph_tick context marked)
  /\ (forall b, tick context (set_changed b this) = tick context this).
Proof.
  split.
  - exists (set_changed true this). by repeat split.
  - intros b. reflexivity.
Qed.

(** When the nested pass leaves the host's flag alone, the flag is set
    after [tick]. *)
Lemma tick_leaves_changed_set (context : IUpdateContext) (this : CGraph Graph) :
  (forall h, changed (fst (Graph_tick context h)) = changed h) ->
  changed (fst (tick context this)) = true.
Proof. intros Hkeeps. unfold CGraph.tick. by rewrite Hkeeps. Qed.

(** C3: whatever the host, [deflate] never returns a record: when it
    returns, the value is [undefined], which has no [graph] field. *)
Theorem deflate_returns_no_record (this : CGraph Graph) :
  (deflate this = Return JUndefined \/ deflate this = Throw TypeError)
  /\ (forall json, deflate this = Return json -> get_field json "graph" = None)
  /\ (forall fields, Component_deflate this = JObject fields ->
        deflate this = Return JUndefined).
Proof.
  unfold deflate. repeat split.
  - destruct (set_graph _ _); [by left | by right].
  - intros json. destruct (set_graph _ _); [|done]. by intros [= <-].
  - by intros fields ->.
Qed.

End HostFacts.

(** What the record of [host] is once the [graph] field is attached. *)
Example host_record_has_graph :
  set_graph (host_deflate host) (names_deflate (graph host))
  = Some (JObject [("id", JString "host");
                   ("graph", JObject [("nodes", JArray [JString "Scene";
                                                         JString "Camera"] [])])])
  /\ get_field (JObject [("id", JString "host");
                         ("graph", names_deflate (graph host))]) "graph"
     = Some (names_deflate (graph host)).
Proof. split; reflexivity. Qed.

(** ... and what [deflate] gives back. *)
Example host_deflate_undefined :
  deflate (list string) names_deflate host_deflate host = Return JUndefined.
Proof. reflexivity. Qed.

End CGraphFacts.

(* ====================================================================== *)
(** ** Properties of SelectionController.ts *)

Module SelectionFacts.

Import SelectionController.

Section ControllerFacts.

Context {Node Component : Type}.
Context `{EqDecision Node, EqDecision Component}.

Local Abbreviation Controller := (@SelectionController Node Component).

Lemma set_has_nil {A} `{EqDecision A} (x : A) : set_has [] x = false.
Proof. unfold set_has. apply bool_decide_eq_false. apply not_elem_of_nil. Qed.

Lemma set_has_singleton_ne {A} `{EqDecision A} (x y : A) :
  x <> y -> set_has [x] y = false.
Proof.
  intros Hne. unfold set_has. apply bool_decide_eq_false.
  rewrite list_elem_of_singleton. congruence.
Qed.

Lemma set_add_nil {A} `{EqDecision A} (x : A) : set_add x [] = [x].
Proof. unfold set_add. by rewrite set_has_nil. Qed.

Lemma set_add_not_nil {A} `{EqDecision A} (x : A) (s : list A) : set_add x s <> [].
Proof.
  unfold set_add, set_has. case_bool_decide as Hin.
  - intros ->. by apply elem_of_nil in Hin.
  - by destruct s.
Qed.

(** *** What the methods leave alone *)

Lemma selectNode_flags node toggle (this : Controller) :
  multiSelect (fst (selectNode node toggle this)) = multiSelect this
  /\ exclusiveSelect (fst (selectNode node toggle this)) = exclusiveSelect this.
Proof.
  unfold selectNode.
  destruct (set_has _ node), (multiSelect this && toggle);
    destruct (exclusiveSelect this) eqn:Hexcl; simpl; by rewrite ?Hexcl.
Qed.

Lemma selectComponent_flags component toggle (this : Controller) :
  multiSelect (fst (selectComponent component toggle this)) = multiSelect this
  /\ exclusiveSelect (fst (selectComponent component toggle this))
     = exclusiveSelect this.
Proof.
  unfold selectComponent.
  destruct (set_has _ component), (multiSelect this && toggle);
    destruct (exclusiveSelect this) eqn:Hexcl; simpl; by rewrite ?Hexcl.
Qed.

(** A call with [toggle = false] on an entity that is selected does nothing. *)
Lemma selectNode_selected_no_toggle node (this : Controller) :
  set_has (_selectedNodes this) node = true ->
  selectNode node false this = (this, []).
Proof. intros Hhas. unfold selectNode. by rewrite Hhas, andb_false_r. Qed.

Lemma selectComponent_selected_no_toggle component (this : Controller) :
  set_has (_selectedComponents this) component = true ->
  selectComponent component false this = (this, []).
Proof. intros Hhas. unfold selectComponent. by rewrite Hhas, andb_false_r. Qed.

(** The two reactions to a System event never change the selection. *)
Lemma onSystemNode_changes_nothing event (this : Controller) :
  onSystemNode event this = (this, [Emit_update]).
Proof.
  unfold onSystemNode.
  destruct (node_remove event); simpl; [| done].
  destruct (set_has _ _) eqn:Hhas; [| done].
  by rewrite selectNode_selected_no_toggle.
Qed.

Lemma onSystemComponent_changes_nothing event (this : Controller) :
  onSystemComponent event this = (this, [Emit_update]).
Proof.
  unfold onSystemComponent.
  destruct (component_remove event); simpl; [| done].
  destruct (set_has _ _) eqn:Hhas; [| done].
  by rewrite selectComponent_selected_no_toggle.
Qed.

(** C4: when the System reports the removal of a node that is selected,
    [onSystemNode] leaves the controller as it was, the node still in the
    set of selected nodes, and emits the update notification alone: no
    deselect event comes before it. *)
Theorem onSystemNode_keeps_removed_node_selected
    (this : Controller) (n : Node) :
  set_has (_selectedNodes this) n = true ->
  onSystemNode {| node_remove := true; node := n |} this = (this, [Emit_update])
  /\ set_has (_selectedNodes (fst (onSystemNode {| node_remove := true; node := n |}
                                     this))) n = true.
Proof.
  intros Hsel. rewrite onSystemNode_changes_nothing. by split.
Qed.

(** Single, exclusive selection of an entity that is not selected: every
    selected component and every selected node is deselected, in that
    order, and the entity is selected alone. *)
Lemma selectNode_single_exclusive node toggle (this : Controller) :
  multiSelect this = false -> exclusiveSelect this = true ->
  set_has (_selectedNodes this) node = false ->
  selectNode node toggle this
  = ({| multiSelect := false; exclusiveSelect := true;
        _selectedNodes := [node]; _selectedComponents := [] |},
     flat_map (fun c => emitSelectComponentEvent c false) (_selectedComponents this)
     ++ flat_map (fun n => emitSelectNodeEvent n false) (_selectedNodes this)
     ++ emitSelectNodeEvent node true).
Proof.
  intros Hmulti Hexcl Hnot. unfold selectNode.
  rewrite Hnot, Hmulti, Hexcl. simpl. by rewrite set_add_nil.
Qed.

Lemma selectComponent_single_exclusive component toggle (this : Controller) :
  multiSelect this = false -> exclusiveSelect this = true ->
  set_has (_selectedComponents this) component = false ->
  selectComponent component toggle this
  = ({| multiSelect := false; exclusiveSelect := true;
        _selectedNodes := []; _selectedComponents := [component] |},
     flat_map (fun n => emitSelectNodeEvent n false) (_selectedNodes this)
     ++ flat_map (fun c => emitSelectComponentEvent c false)
          (_selectedComponents this)
     ++ emitSelectComponentEvent component true).
Proof.
  intros Hmulti Hexcl Hnot. unfold selectComponent.
  rewrite Hnot, Hmulti, Hexcl. simpl. by rewrite set_add_nil.
Qed.

(** C7: with [multiSelect = false] and [exclusiveSelect = true], selecting a
    node N1 that is not selected and then another node N2 leaves N2 alone
    selected, the second call emitting deselect(N1) and then select(N2);
    selecting a component instead, while N1 is selected, emits deselect(N1)
    first, empties the set of selected nodes and selects the component. *)
Theorem default_configuration_selection
    (this : Controller) (N1 N2 : Node) (C : Component)
    (toggle1 toggle2 : bool) :
  multiSelect this = false -> exclusiveSelect this = true ->
  set_has (_selectedNodes this) N1 = false -> N1 <> N2 ->
  _selectedNodes (fst (selectNode N1 toggle1 this)) = [N1]
  /\ selectNode N2 toggle2 (fst (selectNode N1 toggle1 this))
     = ({| multiSelect := false; exclusiveSelect := true;
           _selectedNodes := [N2]; _selectedComponents := [] |},
        [Emit_node N1 false; Emit_node N2 true])
  /\ selectComponent C toggle2 (fst (selectNode N1 toggle1 this))
     = ({| multiSelect := false; exclusiveSelect := true;
           _selectedNodes := []; _selectedComponents := [C] |},
        [Emit_node N1 false; Emit_component C true;
         System_emitComponentEvent C selectNodeEvent C true]).
Proof.
  intros Hmulti Hexcl Hnot Hne.
  rewrite (selectNode_single_exclusive N1 toggle1 this Hmulti Hexcl Hnot).
  simpl. split; [done |]. split.
  - rewrite selectNode_single_exclusive; [done | done | done |].
    by apply set_has_singleton_ne.
  - rewrite selectComponent_single_exclusive; [done | done | done |].
    apply set_has_nil.
Qed.

(** *** Exclusive mode *)

Lemma selectNode_one_kind node toggle (this : Controller) :
  exclusiveSelect this = true -> one_kind_selected this ->
  one_kind_selected (fst (selectNode node toggle this)).
Proof.
  intros Hexcl Hone. unfold selectNode. rewrite Hexcl.
  destruct (set_has _ node).
  - destruct (multiSelect this && toggle); [| done].
    destruct Hone as [Hn | Hc]; [left | right]; simpl; [| done].
    by rewrite Hn.
  - destruct (negb _); by right.
Qed.

Lemma selectComponent_one_kind component toggle (this : Controller) :
  exclusiveSelect this = true -> one_kind_selected this ->
  one_kind_selected (fst (selectComponent component toggle this)).
Proof.
  intros Hexcl Hone. unfold selectComponent. rewrite Hexcl.
  destruct (set_has _ component).
  - destruct (multiSelect this && toggle); [| done].
    destruct Hone as [Hn | Hc]; [left | right]; simpl; [done |].
    by rewrite Hc.
  - destruct (negb _); by left.
Qed.

Lemma perform_one_kind c (this : Controller) :
  exclusiveSelect this = true -> one_kind_selected this ->
  exclusiveSelect (fst (perform c this)) = true
  /\ one_kind_selected (fst (perform c this)).
Proof.
  intros Hexcl Hone. destruct c as [n t | c t | e | e]; simpl.
  - split; [| by apply selectNode_one_kind].
    by rewrite (proj2 (selectNode_flags n t this)).
  - split; [| by apply selectComponent_one_kind].
    by rewrite (proj2 (selectComponent_flags c t this)).
  - by rewrite onSystemNode_changes_nothing.
  - by rewrite onSystemComponent_changes_nothing.
Qed.

Lemma run_one_kind calls : forall this : Controller,
  exclusiveSelect this = true -> one_kind_selected this ->
  one_kind_selected (fst (run calls this)).
Proof.
  induction calls as [|c calls IH]; intros this Hexcl Hone; [done |].
  simpl. destruct (perform_one_kind c this Hexcl Hone) as [Hexcl1 Hone1].
  destruct (perform c this) as [this1 log1]. simpl in *.
  specialize (IH this1 Hexcl1 Hone1).
  by destruct (run calls this1) as [this2 log2].
Qed.

(** C10: in exclusive mode [selectNode] and [selectComponent] each keep it
    true that no node is selected or no component is, whatever
    [multiSelect] and [toggle] are, and so does every run of calls on the
    controller; the property holds of a controller whose two sets are empty. *)
Theorem exclusive_mode_one_kind_selected (this : Controller) :
  exclusiveSelect this = true -> one_kind_selected this ->
  (forall node toggle, one_kind_selected (fst (selectNode node toggle this)))
  /\ (forall component toggle,
        one_kind_selected (fst (selectComponent component toggle this)))
  /\ (forall calls, one_kind_selected (fst (run calls this))).
Proof.
  intros Hexcl Hone. repeat split.
  - intros. by apply selectNode_one_kind.
  - intros. by apply selectComponent_one_kind.
  - intros. by apply run_one_kind.
Qed.

End ControllerFacts.

Lemma onSystemNode_keeps_removed_node_selected_witness :
  onSystemNode {| node_remove := true; node := 1 |} node1_selected
  = (node1_selected, [Emit_update])
  /\ set_has (_selectedNodes
                (fst (onSystemNode {| node_remove := true; node := 1 |}
                        node1_selected))) 1 = true.
Proof.
  apply (onSystemNode_keeps_removed_node_selected node1_selected 1).
  reflexivity.
Defined.

Lemma default_configuration_selection_witness :
  _selectedNodes (fst (selectNode 1 false fresh)) = [1]
  /\ selectNode 2 false (fst (selectNode 1 false fresh))
     = ({| multiSelect := false; exclusiveSelect := true;
           _selectedNodes := [2]; _selectedComponents := [] |},
        [Emit_node 1 false; Emit_node 2 true])
  /\ selectComponent 5 false (fst (selectNode 1 false fresh))
     = ({| multiSelect := false; exclusiveSelect := true;
           _selectedNodes := []; _selectedComponents := [5] |},
        [Emit_node 1 false; Emit_component 5 true;
         System_emitComponentEvent 5 selectNodeEvent 5 true]).
Proof.
  apply (default_configuration_selection fresh 1 2 5 false false).
  - reflexivity.
  - reflexivity.
  - reflexivity.
  - lia.
Defined.

Lemma exclusive_mode_one_kind_selected_witness :
  (forall node toggle, one_kind_selected (fst (selectNode node toggle fresh)))
  /\ (forall component toggle,
        one_kind_selected (fst (selectComponent component toggle fresh)))
  /\ (forall calls, one_kind_selected (fst (run calls fresh))).
Proof.
  apply (exclusive_mode_one_kind_selected fresh).
  - reflexivity.
  - left. reflexivity.
Defined.

(** Outside exclusive mode a node and a component can be selected together. *)
Example not_exclusive_both_kinds :
  fst (run [SelectNode 1 false; SelectComponent 5 false]
         {| multiSelect := false; exclusiveSelect := false;
            _selectedNodes := []; _selectedComponents := [] |})
  = {| multiSelect := false; exclusiveSelect := false;
       _selectedNodes := [1]; _selectedComponents := [5] |}.
Proof. reflexivity. Qed.

(** Multi-select with [toggle = true]: N1 and N2 are both selected, and
    selecting N1 again deselects N1 alone. *)
Example multi_select_toggle :
  run [SelectNode 1 true; SelectNode 2 true; SelectNode 1 true]
    {| multiSelect := true; exclusiveSelect := true;
       _selectedNodes := []; _selectedComponents := ([] : list nat) |}
  = ({| multiSelect := true; exclusiveSelect := true;
        _selectedNodes := [2]; _selectedComponents := [] |},
     [Emit_node 1 true; Emit_node 2 true; Emit_node 1 false]).
Proof. reflexivity. Qed.

(** A user's toggle does deselect a selected node in multi-select mode; the
    reaction to a removal, which passes [toggle = false], does not. *)
Example removal_of_selected_node :
  run [SelectNode 1 false; OnSystemNode {| node_remove := true; node := 1 |}] fresh
  = ({| multiSelect := false; exclusiveSelect := true;
        _selectedNodes := [1]; _selectedComponents := [] |},
     [Emit_node 1 true; Emit_update]).
Proof. reflexivity. Qed.

(* ---------------------------------------------------------------------- *)
(** *** The selection as a listener sees it, and the two modes *)

Section ObserverFacts.

Context {Node Component : Type}.
Context `{EqDecision Node, EqDecision Component}.

Local Abbreviation Controller := (@SelectionController Node Component).
Local Abbreviation emission := (@emission Node Component).

Lemma set_has_true {A} `{EqDecision A} (s : list A) (x : A) :
  set_has s x = true <-> x ∈ s.
Proof. unfold set_has. apply bool_decide_eq_true. Qed.

Lemma set_has_false {A} `{EqDecision A} (s : list A) (x : A) :
  set_has s x = false <-> x ∉ s.
Proof. unfold set_has. apply bool_decide_eq_false. Qed.

Lemma set_has_set_add {A} `{EqDecision A} (s : list A) (x : A) :
  set_has (set_add x s) x = true.
Proof.
  unfold set_add. destruct (set_has s x) eqn:Hhas; [done |].
  apply set_has_true. apply elem_of_app. right. apply list_elem_of_here.
Qed.

Lemma set_delete_absent {A} `{EqDecision A} (s : list A) (x : A) :
  x ∉ s -> set_delete x s = s.
Proof.
  unfold set_delete. induction s as [|y s IH]; [done |].
  rewrite not_elem_of_cons. intros [Hne Hnot].
  rewrite filter_cons, decide_True by congruence. by rewrite IH.
Qed.

Lemma set_delete_added {A} `{EqDecision A} (s : list A) (x : A) :
  x ∉ s -> set_delete x (s ++ [x]) = s.
Proof.
  intros Hnot. unfold set_delete. rewrite filter_app.
  fold (set_delete x s). rewrite (set_delete_absent s x Hnot).
  rewrite filter_cons, decide_False by (intros Hne; by apply Hne).
  by rewrite filter_nil, app_nil_r.
Qed.

(** Deleting, one after the other, the elements of a list that holds all
    those of the set empties the set. *)
Lemma delete_all {A} `{EqDecision A} (l : list A) : forall s : list A,
  (forall y, y ∈ s -> y ∈ l) -> foldl (fun acc x => set_delete x acc) s l = [].
Proof.
  induction l as [|x l IH]; intros s Hsub; simpl.
  - destruct s as [|y s]; [done |].
    specialize (Hsub y (list_elem_of_here _ _)). by apply elem_of_nil in Hsub.
  - apply IH. intros y Hy. unfold set_delete in Hy.
    apply list_elem_of_filter in Hy as [Hne Hy].
    specialize (Hsub y Hy). apply elem_of_cons in Hsub as [-> | ?]; done.
Qed.

Lemma replay_nodes_app (log1 log2 : list emission) nodes :
  replay_nodes (log1 ++ log2) nodes = replay_nodes log2 (replay_nodes log1 nodes).
Proof. apply foldl_app. Qed.

Lemma replay_components_app (log1 log2 : list emission) components :
  replay_components (log1 ++ log2) components
  = replay_components log2 (replay_components log1 components).
Proof. apply foldl_app. Qed.

Lemma replay_nodes_component_events (cs : list Component) b (nodes : list Node) :
  replay_nodes (flat_map (fun c => emitSelectComponentEvent c b) cs) nodes = nodes.
Proof. induction cs as [|c cs IH]; [done |]. simpl. by destruct b. Qed.

Lemma replay_components_node_events (ns : list Node) b
    (components : list Component) :
  replay_components (flat_map (fun n => emitSelectNodeEvent n b) ns) components
  = components.
Proof. induction ns as [|n ns IH]; [done |]. simpl. by destruct b. Qed.

Lemma replay_nodes_deselect (ns : list Node) : forall nodes : list Node,
  replay_nodes (Component := Component)
    (flat_map (fun n => emitSelectNodeEvent n false) ns) nodes
  = foldl (fun acc x => set_delete x acc) nodes ns.
Proof. induction ns as [|n ns IH]; intros nodes; [done |]. simpl. apply IH. Qed.

Lemma replay_components_deselect (cs : list Component) :
  forall components : list Component,
  replay_components (Node := Node)
    (flat_map (fun c => emitSelectComponentEvent c false) cs) components
  = foldl (fun acc x => set_delete x acc) components cs.
Proof.
  induction cs as [|c cs IH]; intros components; [done |]. simpl. apply IH.
Qed.

Lemma selectNode_heard node toggle (this : Controller) :
  _selectedNodes (fst (selectNode node toggle this))
  = replay_nodes (snd (selectNode node toggle this)) (_selectedNodes this)
  /\ _selectedComponents (fst (selectNode node toggle this))
     = replay_components (snd (selectNode node toggle this))
         (_selectedComponents this).
Proof.
  unfold selectNode. destruct (set_has _ node) eqn:Hhas.
  { destruct (multiSelect this && toggle); done. }
  destruct (exclusiveSelect this), (negb (multiSelect this && toggle));
    cbn [fst snd _selectedNodes _selectedComponents];
    rewrite !replay_nodes_app, !replay_components_app;
    rewrite ?replay_nodes_component_events, ?replay_components_node_events;
    rewrite ?replay_nodes_deselect, ?replay_components_deselect;
    rewrite ?delete_all by done; done.
Qed.

Lemma selectComponent_heard component toggle (this : Controller) :
  _selectedNodes (fst (selectComponent component toggle this))
  = replay_nodes (snd (selectComponent component toggle this))
      (_selectedNodes this)
  /\ _selectedComponents (fst (selectComponent component toggle this))
     = replay_components (snd (selectComponent component toggle this))
         (_selectedComponents this).
Proof.
  unfold selectComponent. destruct (set_has _ component) eqn:Hhas.
  { destruct (multiSelect this && toggle); done. }
  destruct (exclusiveSelect this), (negb (multiSelect this && toggle));
    cbn [fst snd _selectedNodes _selectedComponents];
    rewrite !replay_nodes_app, !replay_components_app;
    rewrite ?replay_nodes_component_events, ?replay_components_node_events;
    rewrite ?replay_nodes_deselect, ?replay_components_deselect;
    rewrite ?delete_all by done; done.
Qed.

Lemma perform_heard c (this : Controller) :
  _selectedNodes (fst (perform c this))
  = replay_nodes (snd (perform c this)) (_selectedNodes this)
  /\ _selectedComponents (fst (perform c this))
     = replay_components (snd (perform c this)) (_selectedComponents this).
Proof.
  destruct c as [n t | c t | e | e]; simpl.
  - apply selectNode_heard.
  - apply selectComponent_heard.
  - by rewrite onSystemNode_changes_nothing.
  - by rewrite onSystemComponent_changes_nothing.
Qed.

(** X11.  The events tell the whole story: after any run of calls, the two
    sets of the controller are what a listener obtains from the sets
    before the run by adding an entity at each "selected" emission and
    deleting it at each "deselected" one, in the order of the emissions. *)
Theorem selection_follows_the_events (calls : list call) (this : Controller) :
  _selectedNodes (fst (run calls this))
  = replay_nodes (snd (run calls this)) (_selectedNodes this)
  /\ _selectedComponents (fst (run calls this))
     = replay_components (snd (run calls this)) (_selectedComponents this).
Proof.
  revert this. induction calls as [|c calls IH]; intros this; [done |].
  simpl. destruct (perform_heard c this) as [Hn Hc].
  destruct (perform c this) as [this1 log1]. simpl in Hn, Hc.
  destruct (IH this1) as [Hn' Hc'].
  destruct (run calls this1) as [this2 log2]. simpl in *.
  rewrite replay_nodes_app, replay_components_app. by rewrite <- Hn, <- Hc.
Qed.

(** **** Single selection *)

Lemma perform_single c (this : Controller) :
  multiSelect this = false ->
  length (_selectedNodes this) <= 1 -> length (_selectedComponents this) <= 1 ->
  multiSelect (fst (perform c this)) = false
  /\ length (_selectedNodes (fst (perform c this))) <= 1
  /\ length (_selectedComponents (fst (perform c this))) <= 1.
Proof.
  intros Hmulti Hn Hc. destruct c as [n t | c t | e | e]; simpl.
  - unfold selectNode. rewrite Hmulti. cbn [andb negb].
    destruct (set_has _ n); [done |].
    destruct (exclusiveSelect this);
      cbn [fst multiSelect _selectedNodes _selectedComponents];
      rewrite set_add_nil; simpl; repeat split; done || lia.
  - unfold selectComponent. rewrite Hmulti. cbn [andb negb].
    destruct (set_has _ c); [done |].
    destruct (exclusiveSelect this);
      cbn [fst multiSelect _selectedNodes _selectedComponents];
      rewrite set_add_nil; simpl; repeat split; done || lia.
  - by rewrite onSystemNode_changes_nothing.
  - by rewrite onSystemComponent_changes_nothing.
Qed.

(** X12.  While [multiSelect] is false, no run of calls, toggling or not,
    leaves more than one node or more than one component selected. *)
Theorem single_select_at_most_one (calls : list call) (this : Controller) :
  multiSelect this = false ->
  length (_selectedNodes this) <= 1 -> length (_selectedComponents this) <= 1 ->
  multiSelect (fst (run calls this)) = false
  /\ length (_selectedNodes (fst (run calls this))) <= 1
  /\ length (_selectedComponents (fst (run calls this))) <= 1.
Proof.
  revert this. induction calls as [|c calls IH]; intros this Hmulti Hn Hc;
    [done |].
  simpl. destruct (perform_single c this Hmulti Hn Hc) as (Hmulti1 & Hn1 & Hc1).
  destruct (perform c this) as [this1 log1]. simpl in *.
  specialize (IH this1 Hmulti1 Hn1 Hc1).
  by destruct (run calls this1) as [this2 log2].
Qed.

(** X13.  In multi-select mode, selecting with [toggle] a node that is not
    selected adds it to the selected nodes, and selecting it with [toggle]
    once more takes it out again: the set of selected nodes is as before
    the two calls, the second call emits the deselect event alone and
    leaves the components alone.  The same holds for a component. *)
Theorem toggle_twice_restores
    (this : Controller) (n : Node) (c : Component) :
  multiSelect this = true ->
  set_has (_selectedNodes this) n = false ->
  set_has (_selectedComponents this) c = false ->
  (set_has (_selectedNodes (fst (selectNode n true this))) n = true
   /\ snd (selectNode n true (fst (selectNode n true this))) = [Emit_node n false]
   /\ _selectedNodes (fst (selectNode n true (fst (selectNode n true this))))
      = _selectedNodes this
   /\ _selectedComponents (fst (selectNode n true (fst (selectNode n true this))))
      = _selectedComponents (fst (selectNode n true this)))
  /\ (set_has (_selectedComponents (fst (selectComponent c true this))) c = true
      /\ snd (selectComponent c true (fst (selectComponent c true this)))
         = emitSelectComponentEvent c false
      /\ _selectedComponents
           (fst (selectComponent c true (fst (selectComponent c true this))))
         = _selectedComponents this
      /\ _selectedNodes
           (fst (selectComponent c true (fst (selectComponent c true this))))
         = _selectedNodes (fst (selectComponent c true this))).
Proof.
  intros Hmulti Hn Hc. split.
  - assert (fst (selectNode n true this)
            = {| multiSelect := true; exclusiveSelect := exclusiveSelect this;
                 _selectedNodes := _selectedNodes this ++ [n];
                 _selectedComponents :=
                   if exclusiveSelect this then [] else _selectedComponents this |})
      as ->.
    { unfold selectNode. rewrite Hn, Hmulti. simpl.
      unfold set_add. rewrite Hn. by destruct (exclusiveSelect this). }
    assert (set_has (_selectedNodes this ++ [n]) n = true) as Hin.
    { apply set_has_true. apply elem_of_app. right. apply list_elem_of_here. }
    split; [done |]. unfold selectNode. simpl. rewrite Hin. simpl.
    repeat split. apply set_delete_added. by apply set_has_false.
  - assert (fst (selectComponent c true this)
            = {| multiSelect := true; exclusiveSelect := exclusiveSelect this;
                 _selectedNodes :=
                   if exclusiveSelect this then [] else _selectedNodes this;
                 _selectedComponents := _selectedComponents this ++ [c] |})
      as ->.
    { unfold selectComponent. rewrite Hc, Hmulti. simpl.
      unfold set_add. rewrite Hc. by destruct (exclusiveSelect this). }
    assert (set_has (_selectedComponents this ++ [c]) c = true) as Hin.
    { apply set_has_true. apply elem_of_app. right. apply list_elem_of_here. }
    split; [done |]. unfold selectComponent. simpl. rewrite Hin. simpl.
    repeat split. apply set_delete_added. by apply set_has_false.
Qed.

(** X14.  A call that does not toggle ([toggle] false, or [multiSelect]
    false) leaves its entity selected, and repeating it changes nothing
    and emits nothing. *)
Theorem select_without_toggle_idempotent
    (this : Controller) (n : Node) (c : Component) (toggle : bool) :
  multiSelect this && toggle = false ->
  (set_has (_selectedNodes (fst (selectNode n toggle this))) n = true
   /\ selectNode n toggle (fst (selectNode n toggle this))
      = (fst (selectNode n toggle this), []))
  /\ (set_has (_selectedComponents (fst (selectComponent c toggle this))) c = true
      /\ selectComponent c toggle (fst (selectComponent c toggle this))
         = (fst (selectComponent c toggle this), [])).
Proof.
  intros Hno.
  assert (forall this' : Controller,
            multiSelect this' = multiSelect this ->
            set_has (_selectedNodes this') n = true ->
            selectNode n toggle this' = (this', [])) as Hnode.
  { intros this' Hsame Hhas. unfold selectNode. by rewrite Hhas, Hsame, Hno. }
  assert (forall this' : Controller,
            multiSelect this' = multiSelect this ->
            set_has (_selectedComponents this') c = true ->
            selectComponent c toggle this' = (this', [])) as Hcomp.
  { intros this' Hsame Hhas. unfold selectComponent. by rewrite Hhas, Hsame, Hno. }
  split.
  - assert (set_has (_selectedNodes (fst (selectNode n toggle this))) n = true)
      as Hhas.
    { unfold selectNode. rewrite Hno.
      destruct (set_has (_selectedNodes this) n) eqn:Hn; [done |].
      destruct (exclusiveSelect this); simpl; apply set_has_set_add. }
    split; [done |]. apply Hnode; [| done]. apply selectNode_flags.
  - assert (set_has (_selectedComponents (fst (selectComponent c toggle this))) c
            = true) as Hhas.
    { unfold selectComponent. rewrite Hno.
      destruct (set_has (_selectedComponents this) c) eqn:Hc; [done |].
      destruct (exclusiveSelect this); simpl; apply set_has_set_add. }
    split; [done |]. apply Hcomp; [| done]. apply selectComponent_flags.
Qed.

(** X15.  Outside exclusive mode the two selections do not touch each
    other: [selectNode] leaves the selected components as they are and
    emits "node" events only, and [selectComponent] leaves the selected
    nodes as they are and emits no "node" event. *)
Theorem not_exclusive_selections_independent
    (this : Controller) (n : Node) (c : Component) (toggle : bool) :
  exclusiveSelect this = false ->
  (_selectedComponents (fst (selectNode n toggle this)) = _selectedComponents this
   /\ forallb is_node_emission (snd (selectNode n toggle this)) = true)
  /\ (_selectedNodes (fst (selectComponent c toggle this)) = _selectedNodes this
      /\ existsb is_node_emission (snd (selectComponent c toggle this)) = false).
Proof.
  intros Hexcl.
  assert (forall ns : list Node,
            forallb (is_node_emission (Component := Component))
              (flat_map (fun m => emitSelectNodeEvent m false) ns) = true)
    as Hnodes.
  { induction ns as [|m ns IH]; [done |]. simpl. by rewrite IH. }
  assert (forall (b : bool) (cs : list Component),
            existsb (is_node_emission (Node := Node))
              (flat_map (fun m => emitSelectComponentEvent m b) cs) = false)
    as Hcomps.
  { intros b. induction cs as [|m cs IH]; [done |]. simpl. by rewrite IH. }
  split.
  - unfold selectNode. rewrite Hexcl.
    destruct (set_has _ n), (multiSelect this && toggle); simpl;
      rewrite ?forallb_app, ?Hnodes; done.
  - unfold selectComponent. rewrite Hexcl.
    destruct (set_has _ c), (multiSelect this && toggle); simpl;
      rewrite ?existsb_app, ?Hcomps; done.
Qed.

End ObserverFacts.

Lemma single_select_at_most_one_witness :
  multiSelect (fst (run [SelectNode 1 true; SelectNode 2 true;
                         SelectComponent 5 false] fresh)) = false
  /\ length (_selectedNodes
               (fst (run [SelectNode 1 true; SelectNode 2 true;
                          SelectComponent 5 false] fresh))) <= 1
  /\ length (_selectedComponents
               (fst (run [SelectNode 1 true; SelectNode 2 true;
                          SelectComponent 5 false] fresh))) <= 1.
Proof.
  apply (single_select_at_most_one
           [SelectNode 1 true; SelectNode 2 true; SelectComponent 5 false] fresh).
  - reflexivity.
  - simpl. lia.
  - simpl. lia.
Defined.

Lemma toggle_twice_restores_witness :
  (set_has (_selectedNodes (fst (selectNode 2 true multi_selecting))) 2 = true
   /\ snd (selectNode 2 true (fst (selectNode 2 true multi_selecting)))
      = [Emit_node 2 false]
   /\ _selectedNodes
        (fst (selectNode 2 true (fst (selectNode 2 true multi_selecting))))
      = _selectedNodes multi_selecting
   /\ _selectedComponents
        (fst (selectNode 2 true (fst (selectNode 2 true multi_selecting))))
      = _selectedComponents (fst (selectNode 2 true multi_selecting)))
  /\ (set_has (_selectedComponents (fst (selectComponent 6 true multi_selecting)))
        6 = true
      /\ snd (selectComponent 6 true (fst (selectComponent 6 true multi_selecting)))
         = emitSelectComponentEvent 6 false
      /\ _selectedComponents
           (fst (selectComponent 6 true
                   (fst (selectComponent 6 true multi_selecting))))
         = _selectedComponents multi_selecting
      /\ _selectedNodes
           (fst (selectComponent 6 true
                   (fst (selectComponent 6 true multi_selecting))))
         = _selectedNodes (fst (selectComponent 6 true multi_selecting))).
Proof.
  apply (toggle_twice_restores multi_selecting 2 6); reflexivity.
Defined.

Lemma select_without_toggle_idempotent_witness :
  (set_has (_selectedNodes (fst (selectNode 2 false multi_selecting))) 2 = true
   /\ selectNode 2 false (fst (selectNode 2 false multi_selecting))
      = (fst (selectNode 2 false multi_selecting), []))
  /\ (set_has (_selectedComponents (fst (selectComponent 6 false multi_selecting)))
        6 = true
      /\ selectComponent 6 false (fst (selectComponent 6 false multi_selecting))
         = (fst (selectComponent 6 false multi_selecting), [])).
Proof.
  apply (select_without_toggle_idempotent multi_selecting 2 6 false).
  reflexivity.
Defined.

Lemma not_exclusive_selections_independent_witness :
  (_selectedComponents (fst (selectNode 2 false multi_selecting))
   = _selectedComponents multi_selecting
   /\ forallb is_node_emission (snd (selectNode 2 false multi_selecting)) = true)
  /\ (_selectedNodes (fst (selectComponent 6 false multi_selecting))
      = _selectedNodes multi_selecting
      /\ existsb is_node_emission (snd (selectComponent 6 false multi_selecting))
         = false).
Proof.
  apply (not_exclusive_selections_independent multi_selecting 2 6 false).
  reflexivity.
Defined.

End SelectionFacts.
